(** * The gojq command line: run loop, output selection and exit status

    A shallow embedding of the two source files of the command-line
    package: [cli/cli.go] (release 0.12.3) and an earlier revision of the
    same file (release 0.7.0), which lives in [Module Part000] (the
    printing and the JSON reader) and [Module Part000Run] (the other
    readers, the start-up and the top level).

    The package drives three collaborators that are not part of it: the
    query engine ([gojq.Parse], [gojq.Compile], [Code.Run]), the decoders
    and encoders of the sibling files, and the operating system.  They are
    gathered in the record [Collaborators]; every definition below is
    parametric in it, so every theorem holds for all engines, encoders and
    environments.

    Conventions.
    - A Go [interface{}] holding a JSON datum is a [value]; one that may
      also hold an [error] is an [item].
    - A Go [error] is the record of what this package observes of it: its
      message and the two optional methods it is tested for.
    - An [io.Writer] is the string of bytes written to it so far.
    - An iterator is the finite list of what its [Next] yields before it
      reports the end.  The result iterator of the engine additionally
      records, in sequence, the calls it makes back into this package
      ([debug] and [stderr]).  The engine's own [input] primitives, which
      would pull from the shared input iterator, are not part of the
      model.
    - The receiver [*cli] is threaded explicitly: a method returns the
      updated receiver next to its result. *)

From Stdlib Require Import ZArith List String Ascii Bool Lia DecimalString.
From stdpp Require Import gmap strings.

#[local] Set Warnings "-register-all".

Local Open Scope Z_scope.

(** ** Data *)

Inductive value : Type :=
| VNull
| VBool (b : bool)
| VNumber (n : Z)
| VString (s : string)
| VArray (vs : list value)
| VObject (kvs : list (string * value)).

(** What the package can observe of an [error]: [err.Error()], and the
    results of the type assertions [err.(interface{ ExitCode() int })] and
    [err.(interface{ IsEmptyError() bool })] ([None]: the assertion
    fails). *)
Record error : Type := mkError {
  Error : string;
  ExitCode : option Z;
  IsEmptyError : option bool
}.

Inductive item : Type :=
| IValue (v : value)
| IError (err : error).

(** One observable action of the engine's result iterator: it yields an
    item, or it calls one of the two functions registered by
    [runInternal] ([cli.funcDebug], [cli.funcStderr]); both return their
    argument, so what follows does not depend on the call. *)
Inductive step : Type :=
| Yield (x : item)
| CallDebug (v : value)
| CallStderr (v : value).

Definition Code : Type := value -> list value -> list step.

Inductive Query : Type := parsedQuery (src : string).

Definition LF : string := String "010"%char EmptyString.
Definition NUL : string := String "000"%char EmptyString.

Definition name : string := "gojq".
Definition version : string := "0.12.3".
Definition revision : string := "HEAD".

Definition exitCodeOK : Z := 0.
Definition exitCodeFalsyErr : Z := 1.
Definition exitCodeFlagParseErr : Z := 2.
Definition exitCodeCompileErr : Z := 3.
Definition exitCodeNoValueErr : Z := 4.
Definition exitCodeDefaultErr : Z := 5.

(** [errors.New] and [fmt.Errorf]: a message and no further method. *)
Definition errorString (msg : string) : error :=
  {| Error := msg; ExitCode := None; IsEmptyError := None |}.

(** Modelled from the spec: the type [emptyError] is declared outside
    src/.  The spec calls it a wrapper marking an error as already
    reported, so that the top level does not print it again:
    [IsEmptyError] is true and the message is empty.  The spec gives the
    wrapper no exit code of its own.  The wrapper holds the error it is
    built from ([&emptyError{er}] on lines 347 and 352), and its
    [ExitCode] is the one of that error when it has one and the default
    failure code otherwise; this is how the test [er.ExitCode() == 0] of
    line 199 can meet what [process] returns. *)
Definition emptyError (err : error) : error :=
  {| Error := EmptyString;
     ExitCode := Some match ExitCode err with
                      | Some code => code
                      | None => exitCodeDefaultErr
                      end;
     IsEmptyError := Some true |}.

(** Modelled from the spec: the type [exitCodeError] is declared outside
    src/.  The spec calls it a sentinel that is not a real failure and is
    used purely to carry the computed exit code out of the run. *)
Definition exitCodeError_lit (code : Z) : error :=
  {| Error := "exit code: " +:+ NilZero.string_of_int (Z.to_int code);
     ExitCode := Some code;
     IsEmptyError := Some true |}.

Record flagopts : Type := {
  OutputCompact : bool;
  OutputRaw : bool;
  OutputJoin : bool;
  OutputNul : bool;
  OutputColor : bool;
  OutputMono : bool;
  OutputYAML : bool;
  OutputIndent : option Z;
  OutputTab : bool;
  InputNull : bool;
  InputRaw : bool;
  InputSlurp : bool;
  InputStream : bool;
  InputYAML : bool;
  FromFile : string;
  ModulePaths : list string;
  (* the four maps, as the list of pairs in the order [range] visits them *)
  Args : list (string * string);
  ArgsJSON : list (string * string);
  SlurpFile : list (string * string);
  RawFile : list (string * string);
  ExitStatus : bool;
  Version : bool;
  DisableUnsafe : bool
}.

(** The three outcomes of [flags.NewParser(...).ParseArgs] that
    [runInternal] tells apart. *)
Inductive parsed : Type :=
| ParseHelp (msg : string)
| ParseFailed (err : error)
| Parsed (opts : flagopts) (args : list string).

(** The outcomes of [gojq.Compile] that [runInternal] tells apart. *)
Inductive compiled : Type :=
| Compiled (code : Code)
| CompileQueryParseError (typ fname query : string) (err : error)
| CompileJSONParseError (fname contents : string) (err : error)
| CompileFailed (err : error).

(** The base input iterators chosen in [createInputIter]. *)
Inductive inputKind : Type :=
| newRawInputIter
| newStreamInputIter
| newYAMLInputIter
| newJSONInputIter.

Inductive inputIter : Type :=
| stdinIter (newIter : inputKind)
| newFilesInputIter (newIter : inputKind) (fnames : list string)
| newSlurpInputIter (iter : inputIter)
| newSlurpRawInputIter (iter : inputIter)
| newNullInputIter.

(** The marshalers built in [createMarshaler]. *)
Inductive marshaler : Type :=
| yamlFormatter (indent : option Z)
| newEncoder (tab : bool) (indent : Z)
| rawMarshaler (f : marshaler).

(** How a child process ended, as [funcExecImpl] reads it: what
    [cmd.Output] returned and [cmd.ProcessState.ExitCode]. *)
Record cmdResult : Type := {
  cmd_stdout : string;
  cmd_err : option error;
  cmd_ExitCode : Z
}.

Record Collaborators : Type := {
  (* go-flags and the Go runtime *)
  ParseArgs : list string -> parsed;
  runtime_Version : string;
  fmt_v : value -> string;
  strings_TrimSpace : string -> string;
  filepath_Join : string -> string -> string;
  (* the operating system *)
  environ : gmap string string;
  outStream_has_Fd : bool;
  isatty_IsTerminal : bool;
  isatty_IsCygwinTerminal : bool;
  ReadFile : string -> error + string;
  UserHomeDir : error + string;
  Stat_IsNotExist : string -> bool;
  cmd_Output : string -> list string -> string -> cmdResult;
  (* the query engine *)
  gojq_Parse : string -> error + Query;
  gojq_Compile : Query -> list string -> list string -> bool -> compiled;
  (* encoder.go, yaml.go: the bytes written and the error returned *)
  setColors : string -> option error;
  encodeJSON : bool -> bool -> Z -> value -> string * option error;
  encodeYAML : option Z -> value -> string * option error;
  (* inputs.go: what [newIter(cli.inStream, "<stdin>")],
     [newFilesInputIter(newIter, args)] and
     [newJSONInputIter(strings.NewReader(v), fname)] yield, and what
     [newSlurpRawInputIter] makes of the iterator it wraps *)
  decodeStdin : inputKind -> list item;
  decodeFiles : inputKind -> list string -> list item;
  decodeString : string -> string -> list item;
  slurpRaw : list item -> list item;
  (* error.go: wrappers whose methods no property below depends on *)
  flagParseError : error -> error;
  queryParseError : string -> string -> string -> error -> error;
  jsonParseError : string -> string -> Z -> error -> error;
  compileError : error -> error
}.

(** The same collaborators in another environment. *)
Definition with_environ (env : gmap string string) (X : Collaborators)
  : Collaborators :=
  {| ParseArgs := ParseArgs X;
     runtime_Version := runtime_Version X;
     fmt_v := fmt_v X;
     strings_TrimSpace := strings_TrimSpace X;
     filepath_Join := filepath_Join X;
     environ := env;
     outStream_has_Fd := outStream_has_Fd X;
     isatty_IsTerminal := isatty_IsTerminal X;
     isatty_IsCygwinTerminal := isatty_IsCygwinTerminal X;
     ReadFile := ReadFile X;
     UserHomeDir := UserHomeDir X;
     Stat_IsNotExist := Stat_IsNotExist X;
     cmd_Output := cmd_Output X;
     gojq_Parse := gojq_Parse X;
     gojq_Compile := gojq_Compile X;
     setColors := setColors X;
     encodeJSON := encodeJSON X;
     encodeYAML := encodeYAML X;
     decodeStdin := decodeStdin X;
     decodeFiles := decodeFiles X;
     decodeString := decodeString X;
     slurpRaw := slurpRaw X;
     flagParseError := flagParseError X;
     queryParseError := queryParseError X;
     jsonParseError := jsonParseError X;
     compileError := compileError X |}.

(** Instrumentation, not in the source: the calls the run loop makes to
    its collaborators, oldest first. *)
Inductive event : Type :=
| EvNext (x : item)
| EvRun (v : value)
| EvMarshalled (v : value).

(** The struct [cli], with the package variable [noColor] and the
    instrumentation [trace] kept next to it. *)
Record cli : Type := {
  outStream : string;
  errStream : string;
  outputCompact : bool;
  outputRaw : bool;
  outputJoin : bool;
  outputNul : bool;
  outputYAML : bool;
  outputIndent : option Z;
  outputTab : bool;
  inputRaw : bool;
  inputSlurp : bool;
  inputStream : bool;
  inputYAML : bool;
  disableUnsafe : bool;
  argnames : list string;
  argvalues : list value;
  outputYAMLSeparator : bool;
  exitCodeError : option error;
  noColor : bool;
  trace : list event
}.

(** Assignments to single fields. *)
Definition set_outStream (x : string) (c : cli) : cli :=
  {| outStream := x;
     errStream := errStream c;
     outputCompact := outputCompact c;
     outputRaw := outputRaw c;
     outputJoin := outputJoin c;
     outputNul := outputNul c;
     outputYAML := outputYAML c;
     outputIndent := outputIndent c;
     outputTab := outputTab c;
     inputRaw := inputRaw c;
     inputSlurp := inputSlurp c;
     inputStream := inputStream c;
     inputYAML := inputYAML c;
     disableUnsafe := disableUnsafe c;
     argnames := argnames c;
     argvalues := argvalues c;
     outputYAMLSeparator := outputYAMLSeparator c;
     exitCodeError := exitCodeError c;
     noColor := noColor c;
     trace := trace c |}.

Definition set_errStream (x : string) (c : cli) : cli :=
  {| outStream := outStream c;
     errStream := x;
     outputCompact := outputCompact c;
     outputRaw := outputRaw c;
     outputJoin := outputJoin c;
     outputNul := outputNul c;
     outputYAML := outputYAML c;
     outputIndent := outputIndent c;
     outputTab := outputTab c;
     inputRaw := inputRaw c;
     inputSlurp := inputSlurp c;
     inputStream := inputStream c;
     inputYAML := inputYAML c;
     disableUnsafe := disableUnsafe c;
     argnames := argnames c;
     argvalues := argvalues c;
     outputYAMLSeparator := outputYAMLSeparator c;
     exitCodeError := exitCodeError c;
     noColor := noColor c;
     trace := trace c |}.

Definition set_argnames (x : list string) (c : cli) : cli :=
  {| outStream := outStream c;
     errStream := errStream c;
     outputCompact := outputCompact c;
     outputRaw := outputRaw c;
     outputJoin := outputJoin c;
     outputNul := outputNul c;
     outputYAML := outputYAML c;
     outputIndent := outputIndent c;
     outputTab := outputTab c;
     inputRaw := inputRaw c;
     inputSlurp := inputSlurp c;
     inputStream := inputStream c;
     inputYAML := inputYAML c;
     disableUnsafe := disableUnsafe c;
     argnames := x;
     argvalues := argvalues c;
     outputYAMLSeparator := outputYAMLSeparator c;
     exitCodeError := exitCodeError c;
     noColor := noColor c;
     trace := trace c |}.

Definition set_argvalues (x : list value) (c : cli) : cli :=
  {| outStream := outStream c;
     errStream := errStream c;
     outputCompact := outputCompact c;
     outputRaw := outputRaw c;
     outputJoin := outputJoin c;
     outputNul := outputNul c;
     outputYAML := outputYAML c;
     outputIndent := outputIndent c;
     outputTab := outputTab c;
     inputRaw := inputRaw c;
     inputSlurp := inputSlurp c;
     inputStream := inputStream c;
     inputYAML := inputYAML c;
     disableUnsafe := disableUnsafe c;
     argnames := argnames c;
     argvalues := x;
     outputYAMLSeparator := outputYAMLSeparator c;
     exitCodeError := exitCodeError c;
     noColor := noColor c;
     trace := trace c |}.

Definition set_outputYAMLSeparator (x : bool) (c : cli) : cli :=
  {| outStream := outStream c;
     errStream := errStream c;
     outputCompact := outputCompact c;
     outputRaw := outputRaw c;
     outputJoin := outputJoin c;
     outputNul := outputNul c;
     outputYAML := outputYAML c;
     outputIndent := outputIndent c;
     outputTab := outputTab c;
     inputRaw := inputRaw c;
     inputSlurp := inputSlurp c;
     inputStream := inputStream c;
     inputYAML := inputYAML c;
     disableUnsafe := disableUnsafe c;
     argnames := argnames c;
     argvalues := argvalues c;
     outputYAMLSeparator := x;
     exitCodeError := exitCodeError c;
     noColor := noColor c;
     trace := trace c |}.

Definition set_exitCodeError (x : option error) (c : cli) : cli :=
  {| outStream := outStream c;
     errStream := errStream c;
     outputCompact := outputCompact c;
     outputRaw := outputRaw c;
     outputJoin := outputJoin c;
     outputNul := outputNul c;
     outputYAML := outputYAML c;
     outputIndent := outputIndent c;
     outputTab := outputTab c;
     inputRaw := inputRaw c;
     inputSlurp := inputSlurp c;
     inputStream := inputStream c;
     inputYAML := inputYAML c;
     disableUnsafe := disableUnsafe c;
     argnames := argnames c;
     argvalues := argvalues c;
     outputYAMLSeparator := outputYAMLSeparator c;
     exitCodeError := x;
     noColor := noColor c;
     trace := trace c |}.

Definition set_noColor (x : bool) (c : cli) : cli :=
  {| outStream := outStream c;
     errStream := errStream c;
     outputCompact := outputCompact c;
     outputRaw := outputRaw c;
     outputJoin := outputJoin c;
     outputNul := outputNul c;
     outputYAML := outputYAML c;
     outputIndent := outputIndent c;
     outputTab := outputTab c;
     inputRaw := inputRaw c;
     inputSlurp := inputSlurp c;
     inputStream := inputStream c;
     inputYAML := inputYAML c;
     disableUnsafe := disableUnsafe c;
     argnames := argnames c;
     argvalues := argvalues c;
     outputYAMLSeparator := outputYAMLSeparator c;
     exitCodeError := exitCodeError c;
     noColor := x;
     trace := trace c |}.

Definition set_trace (x : list event) (c : cli) : cli :=
  {| outStream := outStream c;
     errStream := errStream c;
     outputCompact := outputCompact c;
     outputRaw := outputRaw c;
     outputJoin := outputJoin c;
     outputNul := outputNul c;
     outputYAML := outputYAML c;
     outputIndent := outputIndent c;
     outputTab := outputTab c;
     inputRaw := inputRaw c;
     inputSlurp := inputSlurp c;
     inputStream := inputStream c;
     inputYAML := inputYAML c;
     disableUnsafe := disableUnsafe c;
     argnames := argnames c;
     argvalues := argvalues c;
     outputYAMLSeparator := outputYAMLSeparator c;
     exitCodeError := exitCodeError c;
     noColor := noColor c;
     trace := x |}.

Definition set_outputRaw (x : bool) (c : cli) : cli :=
  {| outStream := outStream c;
     errStream := errStream c;
     outputCompact := outputCompact c;
     outputRaw := x;
     outputJoin := outputJoin c;
     outputNul := outputNul c;
     outputYAML := outputYAML c;
     outputIndent := outputIndent c;
     outputTab := outputTab c;
     inputRaw := inputRaw c;
     inputSlurp := inputSlurp c;
     inputStream := inputStream c;
     inputYAML := inputYAML c;
     disableUnsafe := disableUnsafe c;
     argnames := argnames c;
     argvalues := argvalues c;
     outputYAMLSeparator := outputYAMLSeparator c;
     exitCodeError := exitCodeError c;
     noColor := noColor c;
     trace := trace c |}.

Definition write_out (bytes : string) (c : cli) : cli :=
  set_outStream (outStream c +:+ bytes) c.

Definition write_err (bytes : string) (c : cli) : cli :=
  set_errStream (errStream c +:+ bytes) c.

Definition note (e : event) (c : cli) : cli :=
  set_trace (trace c ++ [e]) c.

(** ** Printing: lines 357-427 of cli/cli.go *)

Section Pipeline.

Variable X : Collaborators.

(** [m.marshal(v, w)]: the bytes written to [w] and the error returned.
    The two encoders are collaborators.

    Modelled from the spec: the type [rawMarshaler] is declared outside
    src/; the spec says that it wraps another encoder, emits the raw
    bytes of a string value unquoted and unescaped instead of
    delegating, and delegates unchanged otherwise. *)
Fixpoint marshal (nocolor : bool) (m : marshaler) (v : value)
  : string * option error :=
  match m with
  | yamlFormatter indent => encodeYAML X indent v
  | newEncoder tab indent => encodeJSON X nocolor tab indent v
  | rawMarshaler f =>
      match v with
      | VString s => (s, None)
      | _ => marshal nocolor f v
      end
  end.

Definition createMarshaler (c : cli) : marshaler :=
  if outputYAML c then yamlFormatter (outputIndent c)
  else
    let indent :=
      if outputCompact c then 0
      else if outputTab c then 1
      else match outputIndent c with
           | Some i => i
           | None => 2
           end in
    let f := newEncoder (outputTab c) indent in
    if outputRaw c || outputJoin c || outputNul c then rawMarshaler f
    else f.

Definition printError (err : error) (c : cli) : cli :=
  match IsEmptyError err with
  | Some true => c
  | _ => write_err (name +:+ ": " +:+ Error err +:+ LF) c
  end.

Definition funcDebug (v : value) (c : cli) : cli :=
  let c := write_err
             (fst (marshal (noColor c) (newEncoder false 0)
                     (VArray [VString "DEBUG:"; v]))) c in
  write_err LF c.

Definition funcStderr (v : value) (c : cli) : cli :=
  write_err (fst (marshal (noColor c) (newEncoder false 0) v)) c.

(** [v == nil || v == false] *)
Definition falsy (v : value) : bool :=
  match v with
  | VNull | VBool false => true
  | _ => false
  end.

(** Lines 367-371: the separator of YAML documents. *)
Definition separate (c : cli) : cli :=
  if outputYAMLSeparator c
  then write_out ("---" +:+ LF) c
  else set_outputYAMLSeparator (outputYAML c) c.

(** Lines 375-381: the exit status follows the value just printed. *)
Definition track (v : value) (c : cli) : cli :=
  match exitCodeError c with
  | Some _ =>
      if falsy v
      then set_exitCodeError (Some (exitCodeError_lit exitCodeFalsyErr)) c
      else set_exitCodeError (Some (exitCodeError_lit exitCodeOK)) c
  | None => c
  end.

(** Lines 382-388: the terminator. *)
Definition terminate (c : cli) : cli :=
  if negb (outputJoin c) && negb (outputYAML c)
  then if outputNul c then write_out NUL c else write_out LF c
  else c.

(** The loop of [printValues] from its top, for a marshaler [m] and the
    rest [iter] of the result iterator. *)
Fixpoint printValues_loop (m : marshaler) (iter : list step) (c : cli)
  : cli * option error :=
  match iter with
  | [] => (c, None)
  | CallDebug v :: iter => printValues_loop m iter (funcDebug v c)
  | CallStderr v :: iter => printValues_loop m iter (funcStderr v c)
  | Yield (IError err) :: _ => (c, Some err)
  | Yield (IValue v) :: iter =>
      let c := separate c in
      let '(bytes, failed) := marshal (noColor c) m v in
      let c := write_out bytes c in
      match failed with
      | Some err => (c, Some err)
      | None =>
          let c := note (EvMarshalled v) c in
          printValues_loop m iter (terminate (track v c))
      end
  end.

Definition printValues (iter : list step) (c : cli) : cli * option error :=
  printValues_loop (createMarshaler c) iter c.

(** The loop of [process] from its top: [iter] is the rest of the input
    iterator, [err] the local variable of that name. *)
Fixpoint process_loop (code : Code) (iter : list item) (err : option error)
  (c : cli) : cli * option error :=
  match iter with
  | [] => (c, err)
  | IError er :: iter =>
      let c := note (EvNext (IError er)) c in
      let c := printError er c in
      process_loop code iter (Some (emptyError er)) c
  | IValue v :: iter =>
      let c := note (EvNext (IValue v)) c in
      let c := note (EvRun v) c in
      match printValues (code v (argvalues c)) c with
      | (c, Some er) =>
          let c := printError er c in
          process_loop code iter (Some (emptyError er)) c
      | (c, None) => process_loop code iter err c
      end
  end.

Definition process (iter : list item) (code : Code) (c : cli)
  : cli * option error :=
  process_loop code iter None c.

(** ** Start-up: lines 88-256 and 301-336 of cli/cli.go *)

Definition Getenv (key : string) : string :=
  default EmptyString (environ X !! key).

(** [isTTY(cli.outStream)] *)
Definition isTTY : bool :=
  if String.eqb (Getenv "TERM") "dumb" then false
  else outStream_has_Fd X
       && (isatty_IsTerminal X || isatty_IsCygwinTerminal X).

(** The value assigned to [noColor] on lines 129-135. *)
Definition chooseNoColor (opts : flagopts) : bool :=
  if OutputColor opts || OutputMono opts then OutputMono opts
  else if negb (String.eqb (Getenv "NO_COLOR") EmptyString) then true
  else negb isTTY.

(** Lines 136-142. *)
Definition loadColors (c : cli) : option error :=
  if noColor c then None
  else
    let colors := Getenv "GOJQ_COLORS" in
    if String.eqb colors EmptyString then None else setColors X colors.

Definition fmt_d (i : Z) : string := NilZero.string_of_int (Z.to_int i).

(** Lines 143-149. *)
Definition checkIndent (c : cli) : option error :=
  match outputIndent c with
  | Some i =>
      if 9 <? i
      then Some (errorString ("too many indentation count: " +:+ fmt_d i))
      else if i <? 0
      then Some (errorString ("negative indentation count: " +:+ fmt_d i))
      else None
  | None => None
  end.

(** Modelled from the spec: [newSlurpInputIter] is declared outside
    src/.  The spec says that it drains the wrapped iterator fully,
    collecting all non-error values into one ordered sequence, which
    becomes the single emitted value, and that if the wrapped iterator
    ever yields an error, that error is emitted instead and draining
    stops. *)
Fixpoint slurp (iter : list item) (vs : list value) : item :=
  match iter with
  | [] => IValue (VArray vs)
  | IError err :: _ => IError err
  | IValue v :: iter => slurp iter (vs ++ [v])
  end.

(** What an input iterator yields before it ends.

    Modelled from the spec: [newNullInputIter] is declared outside src/;
    the spec says that it yields exactly one null value and is then
    exhausted. *)
Fixpoint yields (iter : inputIter) : list item :=
  match iter with
  | stdinIter newIter => decodeStdin X newIter
  | newFilesInputIter newIter fnames => decodeFiles X newIter fnames
  | newSlurpInputIter iter => [slurp (yields iter) []]
  | newSlurpRawInputIter iter => slurpRaw X (yields iter)
  | newNullInputIter => [IValue VNull]
  end.

(** [iter.Next()] on a fresh iterator, with the second result dropped. *)
Definition first_Next (iter : list item) : item :=
  match iter with
  | [] => IValue VNull
  | x :: _ => x
  end.

Definition slurpFile (fname : string) : error + value :=
  let iter := newSlurpInputIter (newFilesInputIter newJSONInputIter [fname]) in
  match first_Next (yields iter) with
  | IError err => inl err
  | IValue val => inr val
  end.

Definition bind (k : string) (val : value) (c : cli) : cli :=
  set_argvalues (argvalues c ++ [val]) (set_argnames (argnames c ++ ["$" +:+ k]) c).

(** The four loops of lines 155-182. *)
Fixpoint bindArgs (kvs : list (string * string)) (c : cli) : cli :=
  match kvs with
  | [] => c
  | (k, v) :: kvs => bindArgs kvs (bind k (VString v) c)
  end.

Fixpoint bindArgsJSON (kvs : list (string * string)) (c : cli)
  : cli * option error :=
  match kvs with
  | [] => (c, None)
  | (k, v) :: kvs =>
      match first_Next (decodeString X v ("$" +:+ k)) with
      | IError err => (c, Some err)
      | IValue val => bindArgsJSON kvs (bind k val c)
      end
  end.

Fixpoint bindSlurpFile (kvs : list (string * string)) (c : cli)
  : cli * option error :=
  match kvs with
  | [] => (c, None)
  | (k, v) :: kvs =>
      match slurpFile v with
      | inl err => (c, Some err)
      | inr val => bindSlurpFile kvs (bind k val c)
      end
  end.

Fixpoint bindRawFile (kvs : list (string * string)) (c : cli)
  : cli * option error :=
  match kvs with
  | [] => (c, None)
  | (k, v) :: kvs =>
      match ReadFile X v with
      | inl err => (c, Some err)
      | inr val => bindRawFile kvs (bind k (VString val) c)
      end
  end.

(** Lines 183-195: the query text, its name, and the remaining
    arguments. *)
Definition querySource (opts : flagopts) (args : list string)
  : error + (string * string * list string) :=
  if negb (String.eqb (FromFile opts) EmptyString) then
    match ReadFile X (FromFile opts) with
    | inl err => inl err
    | inr src => inr (src, FromFile opts, args)
    end
  else
    match args with
    | [] => inr (".", EmptyString, args)
    | arg :: args => inr (strings_TrimSpace X arg, "<arg>", args)
    end.

Definition createInputIter (args : list string) (c : cli) : inputIter :=
  let newIter :=
    if inputRaw c then newRawInputIter
    else if inputStream c then newStreamInputIter
    else if inputYAML c then newYAMLInputIter
    else newJSONInputIter in
  let iter :=
    match args with
    | [] => stdinIter newIter
    | _ => newFilesInputIter newIter args
    end in
  if inputSlurp c
  then if inputRaw c then newSlurpRawInputIter iter
       else newSlurpInputIter iter
  else iter.

Definition addDefaultModulePaths : bool := true.

(** Lines 208-216. *)
Definition modulePaths (opts : flagopts) : list string :=
  match ModulePaths opts with
  | [] =>
      if addDefaultModulePaths then
        match UserHomeDir X with
        | inr homeDir => [filepath_Join X homeDir ".jq"; "../lib/jq"; "lib"]
        | inl _ => ["../lib/jq"; "lib"]
        end
      else []
  | paths => paths
  end.

(** Lines 124-127 and 153-154. *)
Definition assignOutputFlags (opts : flagopts) (c : cli) : cli :=
  {| outStream := outStream c;
     errStream := errStream c;
     outputCompact := OutputCompact opts;
     outputRaw := OutputRaw opts;
     outputJoin := OutputJoin opts;
     outputNul := OutputNul opts;
     outputYAML := OutputYAML opts;
     outputIndent := OutputIndent opts;
     outputTab := OutputTab opts;
     inputRaw := inputRaw c;
     inputSlurp := inputSlurp c;
     inputStream := inputStream c;
     inputYAML := inputYAML c;
     disableUnsafe := DisableUnsafe opts;
     argnames := argnames c;
     argvalues := argvalues c;
     outputYAMLSeparator := outputYAMLSeparator c;
     exitCodeError := exitCodeError c;
     noColor := noColor c;
     trace := trace c |}.

Definition assignInputFlags (opts : flagopts) (c : cli) : cli :=
  {| outStream := outStream c;
     errStream := errStream c;
     outputCompact := outputCompact c;
     outputRaw := outputRaw c;
     outputJoin := outputJoin c;
     outputNul := outputNul c;
     outputYAML := outputYAML c;
     outputIndent := outputIndent c;
     outputTab := outputTab c;
     inputRaw := InputRaw opts;
     inputSlurp := InputSlurp opts;
     inputStream := InputStream opts;
     inputYAML := InputYAML opts;
     disableUnsafe := disableUnsafe c;
     argnames := argnames c;
     argvalues := argvalues c;
     outputYAMLSeparator := outputYAMLSeparator c;
     exitCodeError := exitCodeError c;
     noColor := noColor c;
     trace := trace c |}.

(** The receiver and [noColor] after lines 124-135. *)
Definition configured (opts : flagopts) (c : cli) : cli :=
  set_noColor (chooseNoColor opts) (assignOutputFlags opts c).

(** Lines 150-195: what follows the check of the indentation count, up
    to the parsing of the query.  [inl]: an early [return err]; [inr]:
    the query text, its name and the remaining arguments. *)
Definition configureRest (opts : flagopts) (args : list string) (c : cli)
  : cli * (error + (string * string * list string)) :=
  if OutputYAML opts && OutputTab opts
  then (c, inl (errorString "cannot use tabs for YAML output"))
  else
  let c := assignInputFlags opts c in
  let c := bindArgs (Args opts) c in
  match bindArgsJSON (ArgsJSON opts) c with
  | (c, Some err) => (c, inl err)
  | (c, None) =>
  match bindSlurpFile (SlurpFile opts) c with
  | (c, Some err) => (c, inl err)
  | (c, None) =>
  match bindRawFile (RawFile opts) c with
  | (c, Some err) => (c, inl err)
  | (c, None) =>
  match querySource opts args with
  | inl err => (c, inl err)
  | inr q => (c, inr q)
  end end end end.

(** Lines 136-195: the checks and bindings between the choice of
    [noColor] and the parsing of the query. *)
Definition configure (opts : flagopts) (args : list string) (c : cli)
  : cli * (error + (string * string * list string)) :=
  match loadColors c with
  | Some err => (c, inl err)
  | None =>
      match checkIndent c with
      | Some err => (c, inl err)
      | None => configureRest opts args c
      end
  end.

(** Lines 204-254: from the query text to the input iterator and the
    compiled code handed to [process]. *)
Definition prepare (opts : flagopts) (arg fname : string)
  (args : list string) (c : cli) : error + (inputIter * Code) :=
  match gojq_Parse X arg with
  | inl err => inl (queryParseError X "query" fname arg err)
  | inr query =>
      let iter := createInputIter args c in
      match gojq_Compile X query (modulePaths opts) (argnames c)
              (negb (disableUnsafe c)) with
      | CompileQueryParseError typ name query err =>
          let name := if Stat_IsNotExist X name
                      then fname +:+ ":" +:+ name else name in
          inl (queryParseError X typ name query err)
      | CompileJSONParseError fname contents err =>
          inl (compileError X (jsonParseError X fname contents 0 err))
      | CompileFailed err => inl (compileError X err)
      | Compiled code =>
          inr (if InputNull opts then newNullInputIter else iter, code)
      end
  end.

Definition evaluate (opts : flagopts) (arg fname : string)
  (args : list string) (c : cli) : cli * option error :=
  match prepare opts arg fname args c with
  | inl err => (c, Some err)
  | inr (iter, code) => process (yields iter) code c
  end.

(** The function deferred on lines 198-202, applied to the result [err]
    when [runInternal] returns. *)
Definition exitStatusDeferred (c : cli) (err : option error) : option error :=
  match err with
  | Some er =>
      match ExitCode er with
      | Some code => if code =? 0 then exitCodeError c else err
      | None => exitCodeError c
      end
  | None => exitCodeError c
  end.

(** Lines 196-255. *)
Definition runQuery (opts : flagopts) (arg fname : string)
  (args : list string) (c : cli) : cli * option error :=
  if ExitStatus opts then
    let c := set_exitCodeError
               (Some (exitCodeError_lit exitCodeNoValueErr)) c in
    let '(c, err) := evaluate opts arg fname args c in
    (c, exitStatusDeferred c err)
  else evaluate opts arg fname args c.

Definition DQUOTE : string := String "034"%char EmptyString.

Definition versionLine : string :=
  name +:+ " " +:+ version +:+ " (rev: " +:+ revision +:+ "/"
  +:+ runtime_Version X +:+ ")" +:+ LF.

Definition helpText : string :=
  name +:+ " - Go implementation of jq" +:+ LF +:+ LF
  +:+ "Version: " +:+ version +:+ " (rev: " +:+ revision +:+ "/"
  +:+ runtime_Version X +:+ ")" +:+ LF +:+ LF
  +:+ "Synopsis:" +:+ LF
  +:+ "  % echo '{" +:+ DQUOTE +:+ "foo" +:+ DQUOTE +:+ ": 128}' | "
  +:+ name +:+ " '.foo'" +:+ LF +:+ LF.

Definition runInternal (args : list string) (c : cli) : cli * option error :=
  match ParseArgs X args with
  | ParseHelp msg => (write_out (msg +:+ LF) (write_out helpText c), None)
  | ParseFailed err => (c, Some (flagParseError X err))
  | Parsed opts args =>
      if Version opts then (write_out versionLine c, None)
      else
        let c := assignOutputFlags opts c in
        let x := noColor c in
        let c := set_noColor (chooseNoColor opts) c in
        let '(c, err) :=
          match configure opts args c with
          | (c, inl err) => (c, Some err)
          | (c, inr (arg, fname, args)) => runQuery opts arg fname args c
          end in
        (set_noColor x c, err)
  end.

Definition run (args : list string) (c : cli) : cli * Z :=
  match runInternal args c with
  | (c, Some err) =>
      let c := printError err c in
      match ExitCode err with
      | Some code => (c, code)
      | None => (c, exitCodeDefaultErr)
      end
  | (c, None) => (c, exitCodeOK)
  end.

(** ** The two unsafe filters: lines 257-299 of cli/cli.go *)

(** The loop of lines 281-288: [inr] the strings collected, [inl] the
    [return] of line 285. *)
Fixpoint collectStrings (args : list value) (cmds : list string)
  : unit + list string :=
  match args with
  | [] => inr cmds
  | VString s :: args => collectStrings args (cmds ++ [s])
  | _ :: _ => inl tt
  end.

(** [i2[k]]; the engine calls both filters with exactly two arguments. *)
Definition index (i2 : list value) (k : nat) : value :=
  nth k i2 VNull.

Definition funcExecImpl (funcname : string) (i : value) (i2 : list value)
  : item :=
  match
    match i with
    | VString input => inr input
    | VNull => inr EmptyString
    | _ => inl (errorString
                  ("exec/2 filter input must be string: " +:+ fmt_v X i))
    end
  with
  | inl err => IError err
  | inr input =>
  match index i2 0 with
  | VString executablePath =>
      match index i2 1 with
      | VArray args =>
          match collectStrings args [] with
          | inl _ =>
              IError (errorString
                (funcname +:+ "/2 the second argument must be array of string: "
                 +:+ fmt_v X (index i2 1)))
          | inr cmds =>
              let cmd := cmd_Output X executablePath cmds input in
              match cmd_err cmd with
              | Some err => IError err
              | None =>
                  if negb (cmd_ExitCode cmd =? 0)
                  then IError (errorString
                         (funcname +:+ "/2 returns non-zero status: "
                          +:+ fmt_d (cmd_ExitCode cmd)))
                  else IValue (VString (cmd_stdout cmd))
              end
          end
      | _ =>
          IError (errorString
            (funcname +:+ "/2 the second argument must be array of string: "
             +:+ fmt_v X (index i2 1)))
      end
  | _ =>
      IError (errorString
        (funcname +:+ "/2 the first argument must be string: "
         +:+ fmt_v X (index i2 0)))
  end
  end.

Definition funcExec (i : value) (i2 : list value) : item :=
  funcExecImpl "exec" VNull i2.

Definition funcExecPipe (i : value) (i2 : list value) : item :=
  funcExecImpl "execpipe" i i2.

End Pipeline.

(** ** The earlier revision of the file (release 0.7.0) *)

Module Part000.

Definition version : string := "0.7.0".
Definition exitCodeOK : Z := 0.
Definition exitCodeErr : Z := 1.

(** What the result iterator yields, as the type switch of [printValue]
    tells it apart: an [error], a [[2]interface{}], anything else. *)
Inductive result : Type :=
| RError (err : error)
| RPair (v0 v1 : value)
| RValue (v : value).

Definition Code : Type := value -> list value -> list result.

(** One call of [dec.Decode] that does not report [io.EOF]: a document,
    or a failure together with the text buffered so far. *)
Inductive decoded : Type :=
| Doc (v : value)
| Bad (err : error) (buffered : string).

(** [jsonFormatter()] with the fields [printValue] may have reset for
    compact output. *)
Inductive marshaler : Type :=
| yamlFormatter
| jsonFormatter (compact : bool)
| rawMarshaler (f : marshaler).

Inductive event : Type :=
| EvRun (v : value)
| EvMarshalled (x : value).

Record cli : Type := {
  outStream : string;
  errStream : string;
  outputCompact : bool;
  outputRaw : bool;
  outputJoin : bool;
  outputYAML : bool;
  inputRaw : bool;
  inputSlurp : bool;
  inputYAML : bool;
  argnames : list string;
  argvalues : list value;
  outputYAMLSeparator : bool;
  trace : list event
}.

Definition set_outStream (x : string) (c : cli) : cli :=
  {| outStream := x;
     errStream := errStream c;
     outputCompact := outputCompact c;
     outputRaw := outputRaw c;
     outputJoin := outputJoin c;
     outputYAML := outputYAML c;
     inputRaw := inputRaw c;
     inputSlurp := inputSlurp c;
     inputYAML := inputYAML c;
     argnames := argnames c;
     argvalues := argvalues c;
     outputYAMLSeparator := outputYAMLSeparator c;
     trace := trace c |}.

Definition set_errStream (x : string) (c : cli) : cli :=
  {| outStream := outStream c;
     errStream := x;
     outputCompact := outputCompact c;
     outputRaw := outputRaw c;
     outputJoin := outputJoin c;
     outputYAML := outputYAML c;
     inputRaw := inputRaw c;
     inputSlurp := inputSlurp c;
     inputYAML := inputYAML c;
     argnames := argnames c;
     argvalues := argvalues c;
     outputYAMLSeparator := outputYAMLSeparator c;
     trace := trace c |}.

Definition set_outputCompact (x : bool) (c : cli) : cli :=
  {| outStream := outStream c;
     errStream := errStream c;
     outputCompact := x;
     outputRaw := outputRaw c;
     outputJoin := outputJoin c;
     outputYAML := outputYAML c;
     inputRaw := inputRaw c;
     inputSlurp := inputSlurp c;
     inputYAML := inputYAML c;
     argnames := argnames c;
     argvalues := argvalues c;
     outputYAMLSeparator := outputYAMLSeparator c;
     trace := trace c |}.

Definition set_outputYAMLSeparator (x : bool) (c : cli) : cli :=
  {| outStream := outStream c;
     errStream := errStream c;
     outputCompact := outputCompact c;
     outputRaw := outputRaw c;
     outputJoin := outputJoin c;
     outputYAML := outputYAML c;
     inputRaw := inputRaw c;
     inputSlurp := inputSlurp c;
     inputYAML := inputYAML c;
     argnames := argnames c;
     argvalues := argvalues c;
     outputYAMLSeparator := x;
     trace := trace c |}.

Definition set_trace (x : list event) (c : cli) : cli :=
  {| outStream := outStream c;
     errStream := errStream c;
     outputCompact := outputCompact c;
     outputRaw := outputRaw c;
     outputJoin := outputJoin c;
     outputYAML := outputYAML c;
     inputRaw := inputRaw c;
     inputSlurp := inputSlurp c;
     inputYAML := inputYAML c;
     argnames := argnames c;
     argvalues := argvalues c;
     outputYAMLSeparator := outputYAMLSeparator c;
     trace := x |}.

Definition note (e : event) (c : cli) : cli :=
  set_trace (trace c ++ [e]) c.

(** The local variable [outStream] of [printValue]: which of the two
    streams of the receiver it currently denotes. *)
Inductive stream : Type := toOut | toErr.

Definition write (w : stream) (bytes : string) (c : cli) : cli :=
  match w with
  | toOut => set_outStream (outStream c +:+ bytes) c
  | toErr => set_errStream (errStream c +:+ bytes) c
  end.

Section Pipeline.

(** [m.Marshal(x)] for the formatters of the sibling files, and the
    wrapper type [jsonParseError] of the sibling file of errors. *)
Variable Marshal : marshaler -> value -> error + string.
Variable jsonParseError : string -> string -> error -> error.

(** Lines 373-386. *)
Definition createMarshaler (c : cli) : marshaler :=
  if outputYAML c then yamlFormatter
  else
    let f := jsonFormatter (outputCompact c) in
    if outputRaw c || outputJoin c then rawMarshaler f else f.

(** Lines 357-368: from [m.Marshal(x)] to the end of the loop body. *)
Definition emit (m : marshaler) (w : stream) (x : value) (c : cli)
  : cli * option error :=
  match Marshal m x with
  | inl err => (c, Some err)
  | inr xs =>
      let c := note (EvMarshalled x) c in
      let c := if outputYAMLSeparator c then write w ("---" +:+ LF) c else c in
      let c := write w xs c in
      let c := set_outputYAMLSeparator (outputYAML c) c in
      let c := if negb (outputJoin c) && negb (outputYAML c)
               then write w LF c else c in
      (c, None)
  end.

(** The loop of [printValue] from its top; [m] is the marshaler created
    before the loop.  A [[2]interface{}] that is marshalled as it is, is
    handed to the marshaler as the array of its two components. *)
Fixpoint printValue_loop (m : marshaler) (v : list result) (c : cli)
  : cli * option error :=
  match v with
  | [] => (c, None)
  | RError err :: _ => (c, Some err)
  | RValue x :: v =>
      match emit m toOut x c with
      | (c, Some err) => (c, Some err)
      | (c, None) => printValue_loop m v c
      end
  | RPair v0 v1 :: v =>
      match v0 with
      | VString s =>
          if String.eqb s "HALT:" then (c, None)
          else
            let compact := outputCompact c in
            let m' := createMarshaler (set_outputCompact true c) in
            let c := set_outputCompact compact (set_outputCompact true c) in
            let x := if String.eqb s "STDERR:" then v1
                     else VArray [v0; v1] in
            match emit m' toErr x c with
            | (c, Some err) => (c, Some err)
            | (c, None) => printValue_loop m v c
            end
      | _ =>
          match emit m toOut (VArray [v0; v1]) c with
          | (c, Some err) => (c, Some err)
          | (c, None) => printValue_loop m v c
          end
      end
  end.

Definition printValue (v : list result) (c : cli) : cli * option error :=
  printValue_loop (createMarshaler c) v c.

(** The loop of [processJSON] from its top: [dec] lists what the
    remaining calls of [dec.Decode] return before [io.EOF], [vs] is the
    local variable of that name. *)
Fixpoint processJSON_loop (fname : string) (code : Code)
  (dec : list decoded) (vs : list value) (c : cli) : cli * option error :=
  match dec with
  | [] =>
      if inputSlurp c then
        let c := note (EvRun (VArray vs)) c in
        printValue (code (VArray vs) (argvalues c)) c
      else (c, None)
  | Bad err buffered :: _ => (c, Some (jsonParseError fname buffered err))
  | Doc v :: dec =>
      if inputSlurp c then processJSON_loop fname code dec (vs ++ [v]) c
      else
        let c := note (EvRun v) c in
        match printValue (code v (argvalues c)) c with
        | (c, Some err) => (c, Some err)
        | (c, None) => processJSON_loop fname code dec vs c
        end
  end.

Definition processJSON (fname : string) (dec : list decoded) (code : Code)
  (c : cli) : cli * option error :=
  processJSON_loop fname code dec [] c.

(** The documents that the earlier [printValue] writes for a result
    sequence of plain values: it stops at the first value that fails to
    marshal. *)
Fixpoint plainDocuments (m : marshaler) (xs : list value)
  : list string :=
  match xs with
  | [] => []
  | x :: xs =>
      match Marshal m x with
      | inl _ => []
      | inr d => d :: plainDocuments m xs
      end
  end.

End Pipeline.

(** The inputs handed to the engine, read off the instrumentation. *)
Definition evaluated (tr : list event) : list value :=
  flat_map (fun e => match e with EvRun v => [v] | _ => [] end) tr.

End Part000.

(** ** The rest of the earlier revision: sources, start-up and top level

    The functions of the earlier file around [printValue] and
    [processJSON]: the other two readers, the choice between the three,
    the files, the bindings with their check of the variable names, and
    the top level that prints what went wrong. *)

Module Part000Run.

Import Part000.

(** The options of lines 54-72; the four maps as the list of pairs in
    the order [range] visits them. *)
Record flagopts : Type := {
  OutputCompact : bool;
  OutputRaw : bool;
  OutputJoin : bool;
  OutputColor : bool;
  OutputMono : bool;
  OutputYAML : bool;
  InputNull : bool;
  InputRaw : bool;
  InputSlurp : bool;
  InputYAML : bool;
  FromFile : string;
  ModulePaths : list string;
  Args : list (string * string);
  ArgsJSON : list (string * string);
  SlurpFile : list (string * string);
  RawFile : list (string * string);
  Version : bool
}.

(** The three outcomes of [ParseArgs] that [runInternal] tells apart. *)
Inductive parsed : Type :=
| ParseHelp (msg : string)
| ParseFailed (err : error)
| Parsed (opts : flagopts) (args : list string).

(** What a reader is made from: [cli.inStream], the text [null] of line
    200, or the file that [os.Open] has opened. *)
Inductive source : Type :=
| Stdin
| NullText
| File (fname : string).

(** What [runInternal] returns when it is not nil, as the type assertion
    of [run] tells it apart: a value of the slice type [errors], or any
    other error. *)
Inductive failure : Type :=
| single (err : error)
| errors (errs : list error).

(** What the file takes from its imports and from the sibling files of
    the package.  [json_Decode] takes whether [UseNumber] was called and
    lists what the calls of [dec.Decode] return before [io.EOF];
    [Scan] lists the lines for which [s.Scan()] is true, with the result
    of [s.Err()] after them; [Marshal] takes the value of the package
    variable [color.NoColor] at the time of the call. *)
Record Externals : Type := {
  ParseArgs : list string -> parsed;
  runtime_Version : string;
  strings_TrimSpace : string -> string;
  filepath_Join : string -> string -> string;
  environ : gmap string string;
  outStream_has_Fd : bool;
  isatty_IsTerminal : bool;
  isatty_IsCygwinTerminal : bool;
  json_Unmarshal : string -> error + value;
  os_Open : string -> option error;
  ReadFile : string -> error + string;
  UserHomeDir : error + string;
  gojq_Parse : string -> error + Query;
  gojq_Compile : Query -> list string -> list string -> error + Code;
  json_Decode : bool -> source -> list decoded;
  yaml_Decode : source -> list decoded;
  ReadAll : source -> error + string;
  Scan : source -> list string * option error;
  fixMapKeyToString : value -> value;
  Marshal : bool -> marshaler -> value -> error + string;
  jsonParseError : string -> string -> error -> error;
  yamlParseError : string -> string -> error -> error;
  queryParseError : string -> string -> error -> error;
  compileError : error -> error;
  variableNameError : string -> error
}.

Definition addDefaultModulePath : bool := true.

(** Line 76: the regular expression [^[a-zA-Z_][a-zA-Z0-9_]*$], as the
    test of a string against it. *)
Definition isLetter (a : ascii) : bool :=
  let n := nat_of_ascii a in
  ((65 <=? n) && (n <=? 90) || (97 <=? n) && (n <=? 122) || (n =? 95))%nat.

Definition isDigit (a : ascii) : bool :=
  let n := nat_of_ascii a in ((48 <=? n) && (n <=? 57))%nat.

Fixpoint allLettersOrDigits (s : string) : bool :=
  match s with
  | EmptyString => true
  | String a s => (isLetter a || isDigit a) && allLettersOrDigits s
  end.

Definition argNameRe_MatchString (k : string) : bool :=
  match k with
  | EmptyString => false
  | String a s => isLetter a && allLettersOrDigits s
  end.

Definition set_outputFlags (compact raw join yaml : bool) (c : cli) : cli :=
  {| outStream := outStream c;
     errStream := errStream c;
     outputCompact := compact;
     outputRaw := raw;
     outputJoin := join;
     outputYAML := yaml;
     inputRaw := inputRaw c;
     inputSlurp := inputSlurp c;
     inputYAML := inputYAML c;
     argnames := argnames c;
     argvalues := argvalues c;
     outputYAMLSeparator := outputYAMLSeparator c;
     trace := trace c |}.

Definition set_inputFlags (raw slurp yaml : bool) (c : cli) : cli :=
  {| outStream := outStream c;
     errStream := errStream c;
     outputCompact := outputCompact c;
     outputRaw := outputRaw c;
     outputJoin := outputJoin c;
     outputYAML := outputYAML c;
     inputRaw := raw;
     inputSlurp := slurp;
     inputYAML := yaml;
     argnames := argnames c;
     argvalues := argvalues c;
     outputYAMLSeparator := outputYAMLSeparator c;
     trace := trace c |}.

(** [cli.argnames = append(cli.argnames, "$"+k)] and
    [cli.argvalues = append(cli.argvalues, val)]. *)
Definition bind (k : string) (val : value) (c : cli) : cli :=
  {| outStream := outStream c;
     errStream := errStream c;
     outputCompact := outputCompact c;
     outputRaw := outputRaw c;
     outputJoin := outputJoin c;
     outputYAML := outputYAML c;
     inputRaw := inputRaw c;
     inputSlurp := inputSlurp c;
     inputYAML := inputYAML c;
     argnames := argnames c ++ ["$" +:+ k];
     argvalues := argvalues c ++ [val];
     outputYAMLSeparator := outputYAMLSeparator c;
     trace := trace c |}.

(** Whether an optional error is nil, for the result of a method. *)
Definition raise (r : cli * option error) : cli * option failure :=
  (fst r, option_map single (snd r)).

Section Sources.

Variable X : Externals.

(** The value of the package variable [color.NoColor] during the calls;
    none of the functions of this section assigns it. *)
Variable NoColor : bool.

(** The loop of lines 265-269; [errs] is the local variable of that
    name. *)
Fixpoint processRaw_loop (code : Code) (lines : list string)
  (errs : list error) (c : cli) : cli * list error :=
  match lines with
  | [] => (c, errs)
  | text :: lines =>
      let c := note (EvRun (VString text)) c in
      match printValue (Marshal X NoColor)
              (code (VString text) (argvalues c)) c with
      | (c, Some err) => processRaw_loop code lines (errs ++ [err]) c
      | (c, None) => processRaw_loop code lines errs c
      end
  end.

(** Lines 255-277. *)
Definition processRaw (fname : string) (input : source) (code : Code)
  (c : cli) : cli * option failure :=
  if inputSlurp c then
    match ReadAll X input with
    | inl err => (c, Some (single err))
    | inr xs =>
        let c := note (EvRun (VString xs)) c in
        raise (printValue (Marshal X NoColor)
                 (code (VString xs) (argvalues c)) c)
    end
  else
    let '(c, errs) := processRaw_loop code (fst (Scan X input)) [] c in
    match snd (Scan X input) with
    | Some err => (c, Some (single err))
    | None =>
        match errs with
        | [] => (c, None)
        | _ :: _ => (c, Some (errors errs))
        end
    end.

(** The loop of [processYAML] from its top: lines 309-328. *)
Fixpoint processYAML_loop (fname : string) (code : Code)
  (dec : list decoded) (vs : list value) (c : cli) : cli * option error :=
  match dec with
  | [] =>
      if inputSlurp c then
        let c := note (EvRun (VArray vs)) c in
        printValue (Marshal X NoColor) (code (VArray vs) (argvalues c)) c
      else (c, None)
  | Bad err buffered :: _ => (c, Some (yamlParseError X fname buffered err))
  | Doc v :: dec =>
      let v := fixMapKeyToString X v in
      if inputSlurp c then processYAML_loop fname code dec (vs ++ [v]) c
      else
        let c := note (EvRun v) c in
        match printValue (Marshal X NoColor) (code v (argvalues c)) c with
        | (c, Some err) => (c, Some err)
        | (c, None) => processYAML_loop fname code dec vs c
        end
  end.

Definition processYAML (fname : string) (input : source) (code : Code)
  (c : cli) : cli * option error :=
  processYAML_loop fname code (yaml_Decode X input) [] c.

(** Lines 245-253. *)
Definition process (fname : string) (input : source) (code : Code)
  (c : cli) : cli * option failure :=
  if inputRaw c then processRaw fname input code c
  else if inputYAML c then raise (processYAML fname input code c)
  else raise (processJSON (Marshal X NoColor) (jsonParseError X) fname
                (json_Decode X true input) code c).

(** Lines 236-243. *)
Definition processFile (fname : string) (code : Code) (c : cli)
  : cli * option failure :=
  match os_Open X fname with
  | Some err => (c, Some (single err))
  | None => process fname (File fname) code c
  end.

(** The loop of lines 206-211. *)
Fixpoint processFiles (args : list string) (code : Code) (c : cli)
  : cli * option failure :=
  match args with
  | [] => (c, None)
  | arg :: args =>
      match processFile arg code c with
      | (c, Some err) => (c, Some err)
      | (c, None) => processFiles args code c
      end
  end.

End Sources.

Section Startup.

Variable X : Externals.

Definition Getenv (key : string) : string :=
  default EmptyString (environ X !! key).

(** Lines 389-395, for [cli.outStream]. *)
Definition isTTY : bool :=
  if String.eqb (Getenv "TERM") "dumb" then false
  else outStream_has_Fd X
       && (isatty_IsTerminal X || isatty_IsCygwinTerminal X).

(** The loop of [slurpFile] from its top: lines 223-232. *)
Fixpoint slurpFile_loop (name : string) (dec : list decoded)
  (vals : list value) : error + list value :=
  match dec with
  | [] => inr vals
  | Bad err buffered :: _ => inl (jsonParseError X name buffered err)
  | Doc val :: dec => slurpFile_loop name dec (vals ++ [val])
  end.

(** Lines 214-234. *)
Definition slurpFile (name : string) : error + list value :=
  match os_Open X name with
  | Some err => inl err
  | None => slurpFile_loop name (json_Decode X false (File name)) []
  end.

(** The four loops of lines 127-166. *)
Fixpoint bindArgs (kvs : list (string * string)) (c : cli)
  : cli * option error :=
  match kvs with
  | [] => (c, None)
  | (k, v) :: kvs =>
      if negb (argNameRe_MatchString k)
      then (c, Some (variableNameError X k))
      else bindArgs kvs (bind k (VString v) c)
  end.

Fixpoint bindArgsJSON (kvs : list (string * string)) (c : cli)
  : cli * option error :=
  match kvs with
  | [] => (c, None)
  | (k, v) :: kvs =>
      if negb (argNameRe_MatchString k)
      then (c, Some (variableNameError X k))
      else
        match json_Unmarshal X v with
        | inl err => (c, Some (jsonParseError X ("$" +:+ k) v err))
        | inr val => bindArgsJSON kvs (bind k val c)
        end
  end.

Fixpoint bindSlurpFile (kvs : list (string * string)) (c : cli)
  : cli * option error :=
  match kvs with
  | [] => (c, None)
  | (k, v) :: kvs =>
      if negb (argNameRe_MatchString k)
      then (c, Some (variableNameError X k))
      else
        match slurpFile v with
        | inl err => (c, Some err)
        | inr vals => bindSlurpFile kvs (bind k (VArray vals) c)
        end
  end.

Fixpoint bindRawFile (kvs : list (string * string)) (c : cli)
  : cli * option error :=
  match kvs with
  | [] => (c, None)
  | (k, v) :: kvs =>
      if negb (argNameRe_MatchString k)
      then (c, Some (variableNameError X k))
      else
        match ReadFile X v with
        | inl err => (c, Some err)
        | inr val => bindRawFile kvs (bind k (VString val) c)
        end
  end.

(** Lines 127-166 as a whole. *)
Definition bindAll (opts : flagopts) (c : cli) : cli * option error :=
  match bindArgs (Args opts) c with
  | (c, Some err) => (c, Some err)
  | (c, None) =>
  match bindArgsJSON (ArgsJSON opts) c with
  | (c, Some err) => (c, Some err)
  | (c, None) =>
  match bindSlurpFile (SlurpFile opts) c with
  | (c, Some err) => (c, Some err)
  | (c, None) => bindRawFile (RawFile opts) c
  end end end.

(** Lines 167-179: the query text, its name, and the remaining
    arguments. *)
Definition querySource (opts : flagopts) (args : list string)
  : error + (string * string * list string) :=
  if negb (String.eqb (FromFile opts) EmptyString) then
    match ReadFile X (FromFile opts) with
    | inl err => inl err
    | inr src => inr (src, FromFile opts, args)
    end
  else
    match args with
    | [] => inr (".", EmptyString, args)
    | arg :: args => inr (strings_TrimSpace X arg, "<arg>", args)
    end.

(** Lines 180-197: from the query text to the compiled code. *)
Definition compile (opts : flagopts) (arg fname : string) (c : cli)
  : error + Code :=
  match gojq_Parse X arg with
  | inl err => inl (queryParseError X fname arg err)
  | inr query =>
      match
        match ModulePaths opts with
        | [] =>
            if addDefaultModulePath then
              match UserHomeDir X with
              | inl err => inl err
              | inr homeDir => inr [filepath_Join X homeDir ".jq"]
              end
            else inr []
        | paths => inr paths
        end
      with
      | inl err => inl err
      | inr modulePaths =>
          match gojq_Compile X query modulePaths (argnames c) with
          | inl err => inl (compileError X err)
          | inr code => inr code
          end
      end
  end.

(** Lines 198-211: the input of the run. *)
Definition processInputs (NoColor : bool) (opts : flagopts)
  (args : list string) (code : Code) (c : cli) : cli * option failure :=
  if InputNull opts then
    let c := set_inputFlags false false (inputYAML c) c in
    process X NoColor "<null>" NullText code c
  else
    match args with
    | [] => process X NoColor "<stdin>" Stdin code c
    | _ :: _ => processFiles X NoColor args code c
    end.

(** Lines 126-211: what follows the choice of [color.NoColor]. *)
Definition runParsed (NoColor : bool) (opts : flagopts)
  (args : list string) (c : cli) : cli * option failure :=
  let c := set_inputFlags (InputRaw opts) (InputSlurp opts) (InputYAML opts)
             c in
  match bindAll opts c with
  | (c, Some err) => (c, Some (single err))
  | (c, None) =>
      match querySource opts args with
      | inl err => (c, Some (single err))
      | inr (arg, fname, args) =>
          match compile opts arg fname c with
          | inl err => (c, Some (single err))
          | inr code => processInputs NoColor opts args code c
          end
      end
  end.

Definition versionLine : string :=
  name +:+ " " +:+ version +:+ " (rev: " +:+ revision +:+ "/"
  +:+ runtime_Version X +:+ ")" +:+ LF.

Definition helpText : string :=
  name +:+ " - Go implementation of jq" +:+ LF +:+ LF
  +:+ "Version: " +:+ version +:+ " (rev: " +:+ revision +:+ "/"
  +:+ runtime_Version X +:+ ")" +:+ LF +:+ LF
  +:+ "Synopsis:" +:+ LF
  +:+ "  % echo '{" +:+ DQUOTE +:+ "foo" +:+ DQUOTE +:+ ": 128}' | "
  +:+ name +:+ " '.foo'" +:+ LF +:+ LF.

(** Lines 92-212.  The second component is the package variable
    [color.NoColor]: the deferred functions of lines 120 and 123 give it
    back the value it had. *)
Definition runInternal (args : list string) (c : cli) (NoColor : bool)
  : cli * bool * option failure :=
  match ParseArgs X args with
  | ParseHelp msg =>
      (write toOut (msg +:+ LF) (write toOut helpText c), NoColor, None)
  | ParseFailed err => (c, NoColor, Some (single err))
  | Parsed opts args =>
      if Version opts then (write toOut versionLine c, NoColor, None)
      else
        let c := set_outputFlags (OutputCompact opts) (OutputRaw opts)
                   (OutputJoin opts) (OutputYAML opts) c in
        let x := NoColor in
        let NoColor :=
          if OutputColor opts || OutputMono opts then OutputMono opts
          else negb isTTY in
        let '(c, err) := runParsed NoColor opts args c in
        (c, x, err)
  end.

(** One line of lines 82 and 85. *)
Definition report (c : cli) (err : error) : cli :=
  write toErr (name +:+ ": " +:+ Error err +:+ LF) c.

(** Lines 78-90. *)
Definition run (args : list string) (c : cli) (NoColor : bool)
  : cli * bool * Z :=
  match runInternal args c NoColor with
  | (c, x, Some (errors errs)) => (fold_left report errs c, x, exitCodeErr)
  | (c, x, Some (single err)) => (report c err, x, exitCodeErr)
  | (c, x, None) => (c, x, exitCodeOK)
  end.

End Startup.

End Part000Run.

(** ** A small world for examples

    A concrete choice of collaborators, used only to run the definitions
    on explicit inputs: an engine whose compiled code is given, a compact
    JSON-like encoder and an encoder that ends every document with a
    line feed, as a YAML stream does. *)

Fixpoint render (v : value) : string :=
  match v with
  | VNull => "null"
  | VBool true => "true"
  | VBool false => "false"
  | VNumber n => fmt_d n
  | VString s => DQUOTE +:+ s +:+ DQUOTE
  | VArray vs => "[" +:+ String.concat "," (map render vs) +:+ "]"
  | VObject kvs =>
      "{" +:+ String.concat ","
                (map (fun '(k, v) => DQUOTE +:+ k +:+ DQUOTE +:+ ":" +:+ render v)
                   kvs) +:+ "}"
  end.

Definition ESC : string := String "027"%char EmptyString.

Definition colored (text : string) : string :=
  ESC +:+ "[1;30m" +:+ text +:+ ESC +:+ "[0m".

Definition renderDocument (v : value) : string :=
  match v with
  | VString s => s +:+ LF
  | _ => render v +:+ LF
  end.

Definition demo (opts : flagopts) (env : gmap string string)
  (stdin : list item) (code : Code) : Collaborators :=
  {| ParseArgs := fun _ => Parsed opts [];
     runtime_Version := "go";
     fmt_v := render;
     strings_TrimSpace := fun s => s;
     filepath_Join := fun a b => a +:+ "/" +:+ b;
     environ := env;
     outStream_has_Fd := true;
     isatty_IsTerminal := true;
     isatty_IsCygwinTerminal := false;
     ReadFile := fun f => inl (errorString ("open " +:+ f));
     UserHomeDir := inr "/home";
     Stat_IsNotExist := fun _ => true;
     cmd_Output := fun path args input =>
       {| cmd_stdout := input; cmd_err := None; cmd_ExitCode := 0 |};
     gojq_Parse := fun src => inr (parsedQuery src);
     gojq_Compile := fun _ _ _ _ => Compiled code;
     setColors := fun colors => Some (errorString ("invalid color: " +:+ colors));
     encodeJSON := fun nocolor _ _ v =>
       (if nocolor then render v else colored (render v), None);
     encodeYAML := fun _ v => (renderDocument v, None);
     decodeStdin := fun _ => stdin;
     decodeFiles := fun _ _ => [];
     decodeString := fun _ _ => [];
     slurpRaw := fun iter => iter;
     flagParseError := fun err => err;
     queryParseError := fun _ _ _ err => err;
     jsonParseError := fun _ _ _ err => err;
     compileError := fun err => err |}.

(** The receiver as [main] creates it: every field at its zero value. *)
Definition fresh : cli :=
  {| outStream := EmptyString;
     errStream := EmptyString;
     outputCompact := false;
     outputRaw := false;
     outputJoin := false;
     outputNul := false;
     outputYAML := false;
     outputIndent := None;
     outputTab := false;
     inputRaw := false;
     inputSlurp := false;
     inputStream := false;
     inputYAML := false;
     disableUnsafe := false;
     argnames := [];
     argvalues := [];
     outputYAMLSeparator := false;
     exitCodeError := None;
     noColor := false;
     trace := [] |}.

(** The options of a command line that sets at most these flags. *)
Definition flagsOf (join color yaml tab slurp exitStatus vers : bool)
  (indent : option Z) : flagopts :=
  {| OutputCompact := false;
     OutputRaw := false;
     OutputJoin := join;
     OutputNul := false;
     OutputColor := color;
     OutputMono := false;
     OutputYAML := yaml;
     OutputIndent := indent;
     OutputTab := tab;
     InputNull := false;
     InputRaw := false;
     InputSlurp := slurp;
     InputStream := false;
     InputYAML := false;
     FromFile := EmptyString;
     ModulePaths := [];
     Args := [];
     ArgsJSON := [];
     SlurpFile := [];
     RawFile := [];
     ExitStatus := exitStatus;
     Version := vers;
     DisableUnsafe := false |}.

(** The identity query. *)
Definition identity : Code := fun v _ => [Yield (IValue v)].



(** ** Vocabulary of the properties *)



(** What the instrumentation says: the records pulled from the input
    iterator, the inputs handed to the engine, the values marshalled
    without an error. *)
Definition pulled (tr : list event) : list item :=
  flat_map (fun e => match e with EvNext x => [x] | _ => [] end) tr.

Definition evaluated (tr : list event) : list value :=
  flat_map (fun e => match e with EvRun v => [v] | _ => [] end) tr.

Definition marshalled (tr : list event) : list value :=
  flat_map (fun e => match e with EvMarshalled v => [v] | _ => [] end) tr.

(** The exit status that the values printed so far stand for. *)
Definition statusOf (printed : list value) : Z :=
  match last printed with
  | None => exitCodeNoValueErr
  | Some v => if falsy v then exitCodeFalsyErr else exitCodeOK
  end.

(** A YAML stream: every document but the first one of the stream is
    preceded by the separator line. *)
Fixpoint yamlStream (started : bool) (docs : list string) : string :=
  match docs with
  | [] => EmptyString
  | d :: docs =>
      (if started then "---" +:+ LF else EmptyString)
      +:+ d +:+ yamlStream true docs
  end.

(** The settings that printing never assigns. *)
Definition settings (c : cli) :=
  (outputCompact c, outputRaw c, outputJoin c, outputNul c, outputYAML c,
   outputIndent c, outputTab c, argvalues c, noColor c).

(** The terminator of lines 382-388. *)
Definition terminator (c : cli) : string :=
  if negb (outputJoin c) && negb (outputYAML c)
  then if outputNul c then NUL else LF
  else EmptyString.

(** Whether a YAML stream has started once [docs] are written. *)
Definition startedAfter (started : bool) (docs : list string) : bool :=
  match docs with
  | [] => started
  | _ :: _ => true
  end.

(** The values among the records of an input iterator. *)
Definition valuesOf (iter : list item) : list value :=
  flat_map (fun x => match x with IValue v => [v] | IError _ => [] end) iter.

(** One value printed without an error: lines 367-388. *)
Definition printed (v : value) (bytes : string) (c : cli) : cli :=
  terminate (track v (note (EvMarshalled v) (write_out bytes (separate c)))).

(** The accumulator agrees with the values marshalled so far. *)
Definition tracking (c : cli) : Prop :=
  exitCodeError c
  = Some (exitCodeError_lit (statusOf (marshalled (trace c)))).

(** What the start-up never touches. *)
Definition untouched (c : cli) :=
  (outStream c, errStream c, outputYAMLSeparator c, exitCodeError c,
   noColor c, trace c,
   (outputCompact c, outputRaw c, outputJoin c, outputNul c, outputYAML c,
    outputIndent c, outputTab c)).

(** The receiver at the call of [process]: the accumulator of the exit
    status is set in exit-status mode only. *)
Definition armed (opts : flagopts) (c : cli) : cli :=
  if ExitStatus opts
  then set_exitCodeError (Some (exitCodeError_lit exitCodeNoValueErr)) c
  else c.

(** What [funcExecImpl] returns once the child has run: the error of
    [cmd.Output] if there is one, an error for a status other than
    zero, and the captured output otherwise. *)
Definition childOutcome (funcname : string) (cmd : cmdResult) : item :=
  match cmd_err cmd with
  | Some err => IError err
  | None =>
      if cmd_ExitCode cmd =? 0
      then IValue (VString (cmd_stdout cmd))
      else IError (errorString
                     (funcname +:+ "/2 returns non-zero status: "
                      +:+ fmt_d (cmd_ExitCode cmd)))
  end.

Section Documents.

Variable X : Collaborators.

(** The bytes that the marshal calls of one [printValues] write, in
    order: the loop stops at the first error it is handed and after the
    first marshal call that fails. *)
Fixpoint documentsOf (nocolor : bool) (m : marshaler) (iter : list step)
  : list string :=
  match iter with
  | [] => []
  | CallDebug _ :: iter | CallStderr _ :: iter => documentsOf nocolor m iter
  | Yield (IError _) :: _ => []
  | Yield (IValue v) :: iter =>
      fst (marshal X nocolor m v)
      :: match snd (marshal X nocolor m v) with
         | Some _ => []
         | None => documentsOf nocolor m iter
         end
  end.

(** The same over a whole run, for the receiver [c] at its start. *)
Definition documents (code : Code) (iter : list item) (c : cli)
  : list string :=
  flat_map
    (fun x =>
       match x with
       | IValue v =>
           documentsOf (noColor c) (createMarshaler c) (code v (argvalues c))
       | IError _ => []
       end) iter.

End Documents.

(** ** Vocabulary of the further properties *)

(** The line that [printError] writes for an error, if any. *)
Definition diagnostic (err : error) : string :=
  match IsEmptyError err with
  | Some true => EmptyString
  | _ => name +:+ ": " +:+ Error err +:+ LF
  end.

Definition appendAll (texts : list string) : string :=
  fold_right String.append EmptyString texts.

(** The receiver with its error stream emptied: everything of it but
    what was written to the error stream. *)
Definition muted (c : cli) : cli := set_errStream EmptyString c.

(** A result sequence without the calls to [debug] and [stderr]. *)
Definition withoutCalls (iter : list step) : list step :=
  List.filter (fun s => match s with Yield _ => true | _ => false end) iter.

(** The names that the four kinds of bindings add, in the order in
    which [runInternal] visits them. *)
Definition boundNames (opts : flagopts) : list string :=
  map (fun kv => "$" +:+ fst kv)
    (Args opts ++ ArgsJSON opts ++ SlurpFile opts ++ RawFile opts).

Definition isString (v : value) : bool :=
  match v with
  | VString _ => true
  | _ => false
  end.

Definition isStringArray (v : value) : bool :=
  match v with
  | VArray args => forallb isString args
  | _ => false
  end.

(** The options of a command line that sets at most the four kinds of
    bindings and the exit-status flag. *)
Definition bindingFlags (args argsJSON slurpFile rawFile : list (string * string))
  (exitStatus : bool) : flagopts :=
  {| OutputCompact := false;
     OutputRaw := false;
     OutputJoin := false;
     OutputNul := false;
     OutputColor := false;
     OutputMono := true;
     OutputYAML := false;
     OutputIndent := None;
     OutputTab := false;
     InputNull := false;
     InputRaw := false;
     InputSlurp := false;
     InputStream := false;
     InputYAML := false;
     FromFile := EmptyString;
     ModulePaths := [];
     Args := args;
     ArgsJSON := argsJSON;
     SlurpFile := slurpFile;
     RawFile := rawFile;
     ExitStatus := exitStatus;
     Version := false;
     DisableUnsafe := false |}.

(** The settings of the earlier receiver that are the same after
    [printValue] as before it. *)
Definition earlierSettings (c : Part000.cli) :=
  (Part000.outputCompact c, Part000.outputRaw c, Part000.outputJoin c,
   Part000.outputYAML c, Part000.inputRaw c, Part000.inputSlurp c,
   Part000.inputYAML c, Part000.argnames c, Part000.argvalues c).

(** The earlier receiver as [main] creates it. *)
Definition earlierFresh : Part000.cli :=
  {| Part000.outStream := EmptyString;
     Part000.errStream := EmptyString;
     Part000.outputCompact := false;
     Part000.outputRaw := false;
     Part000.outputJoin := false;
     Part000.outputYAML := false;
     Part000.inputRaw := false;
     Part000.inputSlurp := false;
     Part000.inputYAML := false;
     Part000.argnames := [];
     Part000.argvalues := [];
     Part000.outputYAMLSeparator := false;
     Part000.trace := [] |}.

(** The options of an earlier command line that sets at most raw input
    and the bindings of [--arg]. *)
Definition earlierFlags (raw : bool) (args : list (string * string))
  : Part000Run.flagopts :=
  {| Part000Run.OutputCompact := true;
     Part000Run.OutputRaw := false;
     Part000Run.OutputJoin := false;
     Part000Run.OutputColor := false;
     Part000Run.OutputMono := true;
     Part000Run.OutputYAML := false;
     Part000Run.InputNull := false;
     Part000Run.InputRaw := raw;
     Part000Run.InputSlurp := false;
     Part000Run.InputYAML := false;
     Part000Run.FromFile := EmptyString;
     Part000Run.ModulePaths := [];
     Part000Run.Args := args;
     Part000Run.ArgsJSON := [];
     Part000Run.SlurpFile := [];
     Part000Run.RawFile := [];
     Part000Run.Version := false |}.

(** A world for the earlier revision: every source holds the lines and
    the documents given, the file [missing] cannot be opened, and the
    formatters are the compact encoder of the examples. *)
Definition earlierDemo (opts : Part000Run.flagopts) (lines : list string)
  (docs : list Part000.decoded) (code : Part000.Code)
  : Part000Run.Externals :=
  {| Part000Run.ParseArgs := fun args => Part000Run.Parsed opts args;
     Part000Run.runtime_Version := "go";
     Part000Run.strings_TrimSpace := fun s => s;
     Part000Run.filepath_Join := fun a b => a +:+ "/" +:+ b;
     Part000Run.environ := ∅;
     Part000Run.outStream_has_Fd := true;
     Part000Run.isatty_IsTerminal := false;
     Part000Run.isatty_IsCygwinTerminal := false;
     Part000Run.json_Unmarshal := fun text => inr (VString text);
     Part000Run.os_Open := fun fname =>
       if String.eqb fname "missing"
       then Some (errorString "open missing: no such file or directory")
       else None;
     Part000Run.ReadFile := fun fname => inl (errorString ("open " +:+ fname));
     Part000Run.UserHomeDir := inr "/home";
     Part000Run.gojq_Parse := fun src => inr (parsedQuery src);
     Part000Run.gojq_Compile := fun _ _ _ => inr code;
     Part000Run.json_Decode := fun _ _ => docs;
     Part000Run.yaml_Decode := fun _ => docs;
     Part000Run.ReadAll := fun _ => inr (String.concat LF lines);
     Part000Run.Scan := fun _ => (lines, None);
     Part000Run.fixMapKeyToString := fun v => v;
     Part000Run.Marshal := fun _ _ v => inr (render v);
     Part000Run.jsonParseError := fun _ _ err => err;
     Part000Run.yamlParseError := fun _ _ err => err;
     Part000Run.queryParseError := fun _ _ err => err;
     Part000Run.compileError := fun err => err;
     Part000Run.variableNameError := fun k =>
       errorString ("invalid variable name: " +:+ k) |}.

(** An earlier query that fails on the empty string and returns any
    other input as it is. *)
Definition rejectEmpty : Part000.Code :=
  fun v _ =>
    match v with
    | VString EmptyString => [Part000.RError (errorString "empty line")]
    | _ => [Part000.RValue v]
    end.

(** What the earlier [printValue] returns for each line of a raw source
    when the lines are taken in turn, each from the receiver that the
    line before it leaves, and the receiver after the last line. *)
Fixpoint lineOutcomes (Marshal : Part000.marshaler -> value -> error + string)
  (code : Part000.Code) (lines : list string) (c : Part000.cli)
  : list (option error) * Part000.cli :=
  match lines with
  | [] => ([], c)
  | text :: lines =>
      let c0 := Part000.note (Part000.EvRun (VString text)) c in
      let r := Part000.printValue Marshal
                 (code (VString text) (Part000.argvalues c0)) c0 in
      let rest := lineOutcomes Marshal code lines (fst r) in
      (snd r :: fst rest, snd rest)
  end.

(** The failures among the outcomes, in their order. *)
Definition failuresIn (outcomes : list (option error)) : list error :=
  flat_map (fun o => match o with Some err => [err] | None => [] end)
    outcomes.

(** The line that the earlier [run] prints for an error. *)
Definition earlierLine (err : error) : string :=
  name +:+ ": " +:+ Error err +:+ LF.

(** The same collaborators with another parser of queries. *)
Definition with_gojq_Parse (parse : string -> error + Query)
  (X : Collaborators) : Collaborators :=
  {| ParseArgs := ParseArgs X;
     runtime_Version := runtime_Version X;
     fmt_v := fmt_v X;
     strings_TrimSpace := strings_TrimSpace X;
     filepath_Join := filepath_Join X;
     environ := environ X;
     outStream_has_Fd := outStream_has_Fd X;
     isatty_IsTerminal := isatty_IsTerminal X;
     isatty_IsCygwinTerminal := isatty_IsCygwinTerminal X;
     ReadFile := ReadFile X;
     UserHomeDir := UserHomeDir X;
     Stat_IsNotExist := Stat_IsNotExist X;
     cmd_Output := cmd_Output X;
     gojq_Parse := parse;
     gojq_Compile := gojq_Compile X;
     setColors := setColors X;
     encodeJSON := encodeJSON X;
     encodeYAML := encodeYAML X;
     decodeStdin := decodeStdin X;
     decodeFiles := decodeFiles X;
     decodeString := decodeString X;
     slurpRaw := slurpRaw X;
     flagParseError := flagParseError X;
     queryParseError := queryParseError X;
     jsonParseError := jsonParseError X;
     compileError := compileError X |}.

(** A document of a YAML source once the keys of its maps are fixed. *)
Definition fixed (X : Part000Run.Externals) (d : Part000.decoded)
  : Part000.decoded :=
  match d with
  | Part000.Doc v => Part000.Doc (Part000Run.fixMapKeyToString X v)
  | Part000.Bad err buffered => Part000.Bad err buffered
  end.

(** The results that the earlier [printValue] takes for messages: the
    pairs whose first component is a string other than [HALT:]. *)
Definition isMessage (r : Part000.result) : bool :=
  match r with
  | Part000.RPair (VString s) _ => negb (String.eqb s "HALT:")
  | _ => false
  end.

Definition withoutMessages (v : list Part000.result) : list Part000.result :=
  List.filter (fun r => negb (isMessage r)) v.

(** What the earlier receiver shows of its output stream. *)
Definition outView (c : Part000.cli) :=
  (Part000.outStream c, Part000.outputJoin c, Part000.outputYAML c,
   Part000.outputYAMLSeparator c).

(** The errors that the earlier [run] prints for a result of
    [runInternal]. *)
Definition failuresOf (r : option Part000Run.failure) : list error :=
  match r with
  | None => []
  | Some (Part000Run.single err) => [err]
  | Some (Part000Run.errors errs) => errs
  end.

(** The bindings of an earlier command line, in the order in which
    [runInternal] visits them. *)
Definition earlierBindings (opts : Part000Run.flagopts)
  : list (string * string) :=
  Part000Run.Args opts ++ Part000Run.ArgsJSON opts
  ++ Part000Run.SlurpFile opts ++ Part000Run.RawFile opts.

Definition validName (kv : string * string) : bool :=
  Part000Run.argNameRe_MatchString (fst kv).

(** What the earlier start-up never touches. *)
Definition earlierUntouched (c : Part000.cli) :=
  (Part000.outStream c, Part000.errStream c, Part000.trace c,
   Part000.outputYAMLSeparator c).

(** The common shape of the four loops of the earlier bindings:
    [produce] is what each of them does to get the value. *)
Fixpoint bindWith (variableNameError : string -> error)
  (produce : string -> string -> error + value)
  (kvs : list (string * string)) (c : Part000.cli)
  : Part000.cli * option error :=
  match kvs with
  | [] => (c, None)
  | (k, v) :: kvs =>
      if negb (Part000Run.argNameRe_MatchString k)
      then (c, Some (variableNameError k))
      else
        match produce k v with
        | inl err => (c, Some err)
        | inr val =>
            bindWith variableNameError produce kvs (Part000Run.bind k val c)
        end
  end.

Section Bindings.

Variable X : Collaborators.

(** The values that the four kinds of bindings give to their names, in
    the same order as [boundNames]; [None] where the value cannot be
    read or parsed. *)
Definition boundValues (opts : flagopts) : list (option value) :=
  map (fun kv => Some (VString (snd kv))) (Args opts)
  ++ map (fun kv =>
            match first_Next (decodeString X (snd kv) ("$" +:+ fst kv)) with
            | IValue val => Some val
            | IError _ => None
            end) (ArgsJSON opts)
  ++ map (fun kv =>
            match slurpFile X (snd kv) with
            | inr val => Some val
            | inl _ => None
            end) (SlurpFile opts)
  ++ map (fun kv =>
            match ReadFile X (snd kv) with
            | inr val => Some (VString val)
            | inl _ => None
            end) (RawFile opts).

End Bindings.

Section PlainText.

Variable X : Collaborators.

(** The text that one [printValues] writes when no separator is due:
    every value that marshals is followed by the terminator [term]; the
    bytes of a marshal call that fails end the text, as does an error
    in the sequence. *)
Fixpoint textOf (nocolor : bool) (m : marshaler) (term : string)
  (iter : list step) : string :=
  match iter with
  | [] => EmptyString
  | CallDebug _ :: iter | CallStderr _ :: iter => textOf nocolor m term iter
  | Yield (IError _) :: _ => EmptyString
  | Yield (IValue v) :: iter =>
      fst (marshal X nocolor m v)
      +:+ match snd (marshal X nocolor m v) with
          | Some _ => EmptyString
          | None => term +:+ textOf nocolor m term iter
          end
  end.

(** The same over a whole run, for the receiver [c] at its start. *)
Definition text (code : Code) (iter : list item) (c : cli) : string :=
  appendAll
    (map (fun x =>
            match x with
            | IValue v =>
                textOf (noColor c) (createMarshaler c) (terminator c)
                  (code v (argvalues c))
            | IError _ => EmptyString
            end) iter).

End PlainText.

(** * Properties *)

(** ** Byte streams *)

Lemma append_assoc (a b c : string) : (a +:+ b) +:+ c = a +:+ (b +:+ c).
Proof.
  induction a as [|x a IH]; [reflexivity|].
  change (String x ((a +:+ b) +:+ c) = String x (a +:+ (b +:+ c))).
  now rewrite IH.
Qed.

Lemma append_nil_r (a : string) : a +:+ EmptyString = a.
Proof.
  induction a as [|x a IH]; [reflexivity|].
  change (String x (a +:+ EmptyString) = String x a).
  now rewrite IH.
Qed.

Lemma eqb_empty_false (s : string) :
  s <> EmptyString -> String.eqb s EmptyString = false.
Proof. intros H. now apply String.eqb_neq. Qed.

(** ** Choice of the marshaler *)

Section Marshalers.

Variable X : Collaborators.

Lemma createMarshaler_yaml (c : cli) :
  outputYAML c = true -> createMarshaler c = yamlFormatter (outputIndent c).
Proof. intros H. unfold createMarshaler. now rewrite H. Qed.

Lemma createMarshaler_raw (c : cli) :
  outputYAML c = false ->
  outputRaw c || outputJoin c || outputNul c = true ->
  exists f, createMarshaler c = rawMarshaler f.
Proof.
  intros Hy Hr. unfold createMarshaler. rewrite Hy, Hr. eauto.
Qed.

(** C10, as amended.  When YAML output is not selected, join-output or
    NUL-output alone selects the raw decorator: a string value is written
    as its own bytes, unquoted, and the marshaler is the very one that
    the raw-output flag would select. *)
Theorem join_or_nul_unwraps_strings (c : cli) (nocolor : bool) (s : string) :
  outputYAML c = false ->
  outputJoin c || outputNul c = true ->
  marshal X nocolor (createMarshaler c) (VString s) = (s, None)
  /\ createMarshaler c = createMarshaler (set_outputRaw true c).
Proof.
  intros Hy Hj.
  assert (Hr : outputRaw c || outputJoin c || outputNul c = true).
  { rewrite <- orb_assoc, Hj. apply orb_true_r. }
  split.
  - destruct (createMarshaler_raw c Hy Hr) as [f ->]. reflexivity.
  - unfold createMarshaler. cbn [outputYAML outputCompact outputTab
      outputIndent outputRaw outputJoin outputNul set_outputRaw].
    now rewrite Hy, Hr.
Qed.

End Marshalers.

(** C10, counterexample.  With YAML output and join-output together the
    marshaler is the bare YAML encoder, for every choice of encoders a
    string is handed to it as it is, and in the example world the string
    [a] leaves as a YAML document, where join-output alone writes the
    single byte. *)
Lemma yaml_join_keeps_yaml_encoder :
  let yj := assignOutputFlags
              (flagsOf true false true false false false false None) fresh in
  let j := assignOutputFlags
             (flagsOf true false false false false false false None) fresh in
  let X := demo (flagsOf true false true false false false false None)
             ∅ [] identity in
  outputJoin yj = true
  /\ createMarshaler yj = yamlFormatter None
  /\ (forall Y nocolor s,
        marshal Y nocolor (createMarshaler yj) (VString s)
        = encodeYAML Y None (VString s))
  /\ outStream (fst (printValues X [Yield (IValue (VString "a"))] yj))
     = "a" +:+ LF
  /\ outStream (fst (printValues X [Yield (IValue (VString "a"))] j)) = "a".
Proof.
  cbv zeta. repeat split.
Qed.

Lemma join_or_nul_unwraps_strings_witness :
  let j := assignOutputFlags
             (flagsOf true false false false false false false None) fresh in
  let X := demo (flagsOf true false false false false false false None)
             ∅ [] identity in
  marshal X false (createMarshaler j) (VString "a") = ("a", None)
  /\ createMarshaler j = createMarshaler (set_outputRaw true j).
Proof.
  cbv zeta.
  apply (join_or_nul_unwraps_strings
           (demo (flagsOf true false false false false false false None)
              ∅ [] identity)); reflexivity.
Defined.

(** ** Colour *)

Lemma Getenv_with_environ (X : Collaborators) (env : gmap string string)
  (key : string) :
  Getenv (with_environ env X) key = default EmptyString (env !! key).
Proof. reflexivity. Qed.

(** An empty value cannot be told from an unset variable. *)
Lemma Getenv_empty_unset (X : Collaborators) (env : gmap string string)
  (key other : string) :
  Getenv (with_environ (<[key := EmptyString]> env) X) other
  = Getenv (with_environ (delete key env) X) other.
Proof.
  rewrite !Getenv_with_environ.
  destruct (decide (key = other)) as [->|Hne].
  - now rewrite lookup_insert_eq, lookup_delete_eq.
  - now rewrite lookup_insert_ne, lookup_delete_ne.
Qed.

Lemma isTTY_dumb (X : Collaborators) :
  Getenv X "TERM" = "dumb" -> isTTY X = false.
Proof. intros H. unfold isTTY. now rewrite H. Qed.

(** The two colour flags are looked at first: with either of them the
    environment is not consulted. *)
Lemma chooseNoColor_flags (X : Collaborators) (opts : flagopts) :
  OutputColor opts || OutputMono opts = true ->
  chooseNoColor X opts = OutputMono opts.
Proof. intros H. unfold chooseNoColor. now rewrite H. Qed.

(** C9, as amended.  When neither colour flag is given: a non-empty
    NO_COLOR switches colour off; so does the terminal type [dumb];
    otherwise colour follows the terminal probe.  In every case NO_COLOR
    set to the empty string behaves as NO_COLOR unset. *)
Theorem noColor_from_environment (X : Collaborators) (opts : flagopts) :
  OutputColor opts = false ->
  OutputMono opts = false ->
  (Getenv X "NO_COLOR" <> EmptyString -> chooseNoColor X opts = true)
  /\ (Getenv X "TERM" = "dumb" -> chooseNoColor X opts = true)
  /\ (Getenv X "NO_COLOR" = EmptyString ->
      chooseNoColor X opts = negb (isTTY X))
  /\ (forall env,
        chooseNoColor (with_environ (<["NO_COLOR" := EmptyString]> env) X) opts
        = chooseNoColor (with_environ (delete "NO_COLOR" env) X) opts).
Proof.
  intros Hc Hm. unfold chooseNoColor. rewrite Hc, Hm. cbn [orb].
  repeat split.
  - intros Hne. now rewrite (eqb_empty_false _ Hne).
  - intros Hdumb. rewrite (isTTY_dumb X Hdumb).
    now destruct (String.eqb (Getenv X "NO_COLOR") EmptyString).
  - intros ->. reflexivity.
  - intros env. unfold isTTY.
    now rewrite !(Getenv_empty_unset X env "NO_COLOR").
Qed.

Lemma noColor_from_environment_witness :
  let opts := flagsOf false false false false false false false None in
  let X := demo opts (<["NO_COLOR" := "1"]> ∅) [] identity in
  (Getenv X "NO_COLOR" <> EmptyString -> chooseNoColor X opts = true)
  /\ (Getenv X "TERM" = "dumb" -> chooseNoColor X opts = true)
  /\ (Getenv X "NO_COLOR" = EmptyString ->
      chooseNoColor X opts = negb (isTTY X))
  /\ (forall env,
        chooseNoColor (with_environ (<["NO_COLOR" := EmptyString]> env) X) opts
        = chooseNoColor (with_environ (delete "NO_COLOR" env) X) opts).
Proof.
  cbv zeta.
  apply (noColor_from_environment
           (demo (flagsOf false false false false false false false None)
              (<["NO_COLOR" := "1"]> ∅) [] identity)); reflexivity.
Defined.

(** C9, counterexample.  With the colour flag given, NO_COLOR set to a
    non-empty string and the terminal type [dumb], colour stays on: the
    run hands [noColor = false] to the encoder and the output is
    coloured. *)
Lemma color_flag_overrides_NO_COLOR :
  let opts := flagsOf false true false false false false false None in
  let X := demo opts (<["NO_COLOR" := "1"]> (<["TERM" := "dumb"]> ∅))
             [IValue VNull] identity in
  Getenv X "NO_COLOR" = "1"
  /\ Getenv X "TERM" = "dumb"
  /\ chooseNoColor X opts = false
  /\ outStream (fst (run X [] fresh)) = colored "null" +:+ LF.
Proof.
  cbv zeta. repeat split; vm_compute; reflexivity.
Qed.

(** ** Start-up checks *)

Section Startup.

Variable X : Collaborators.

(** A run whose flags parse and do not ask for the version: the
    receiver is configured, the checks and bindings run, and [noColor]
    is restored on the way out. *)
Lemma runInternal_parsed (args rest : list string) (opts : flagopts)
  (c : cli) :
  ParseArgs X args = Parsed opts rest ->
  Version opts = false ->
  runInternal X args c
  = let '(c', err) :=
      match configure X opts rest (configured X opts c) with
      | (c', inl err) => (c', Some err)
      | (c', inr (arg, fname, rest')) => runQuery X opts arg fname rest' c'
      end in
    (set_noColor (noColor c) c', err).
Proof.
  intros Hp Hv. unfold runInternal. rewrite Hp, Hv. reflexivity.
Qed.

Lemma run_failed (args : list string) (c c' : cli) (msg : string) :
  runInternal X args c = (c', Some (errorString msg)) ->
  run X args c
  = (write_err (name +:+ ": " +:+ msg +:+ LF) c', exitCodeDefaultErr).
Proof. intros H. unfold run. rewrite H. reflexivity. Qed.

Lemma checkIndent_configured (opts : flagopts) (c : cli) :
  checkIndent (configured X opts c)
  = match OutputIndent opts with
    | Some i =>
        if 9 <? i
        then Some (errorString ("too many indentation count: " +:+ fmt_d i))
        else if i <? 0
        then Some (errorString ("negative indentation count: " +:+ fmt_d i))
        else None
    | None => None
    end.
Proof. reflexivity. Qed.

(** C4, as amended.  In a run whose flags parse, that does not ask for
    the version and whose colour scheme loads: a negative count and a
    count above nine each end the run with the default failure code, the
    stated message (followed by the count) on the error stream, nothing
    on the output stream and no input pulled; a count from 0 to 9 passes
    the check, and the remaining checks and bindings take over. *)
Theorem indentation_count_is_validated (args rest : list string)
  (opts : flagopts) (c : cli) (n : Z) :
  ParseArgs X args = Parsed opts rest ->
  Version opts = false ->
  loadColors X (configured X opts c) = None ->
  OutputIndent opts = Some n ->
  (n < 0 ->
   exists c',
     run X args c = (c', exitCodeDefaultErr)
     /\ errStream c'
        = errStream c
          +:+ (name +:+ ": " +:+ ("negative indentation count: " +:+ fmt_d n)
               +:+ LF)
     /\ outStream c' = outStream c
     /\ trace c' = trace c)
  /\ (9 < n ->
      exists c',
        run X args c = (c', exitCodeDefaultErr)
        /\ errStream c'
           = errStream c
             +:+ (name +:+ ": " +:+ ("too many indentation count: " +:+ fmt_d n)
                  +:+ LF)
        /\ outStream c' = outStream c
        /\ trace c' = trace c)
  /\ (0 <= n <= 9 ->
      checkIndent (configured X opts c) = None
      /\ configure X opts rest (configured X opts c)
         = configureRest X opts rest (configured X opts c)).
Proof.
  intros Hp Hv Hcol Hn.
  pose proof (runInternal_parsed args rest opts c Hp Hv) as Hrun.
  pose proof (checkIndent_configured opts c) as Hck.
  rewrite Hn in Hck.
  unfold configure in *. rewrite Hcol in *.
  split; [|split].
  - intros Hneg.
    assert (H9 : (9 <? n) = false) by (apply Z.ltb_ge; lia).
    assert (H0 : (n <? 0) = true) by (apply Z.ltb_lt; lia).
    rewrite H9, H0 in Hck. rewrite Hck in Hrun.
    eexists. split; [apply run_failed, Hrun|]. repeat split.
  - intros Hbig.
    assert (H9 : (9 <? n) = true) by (apply Z.ltb_lt; lia).
    rewrite H9 in Hck. rewrite Hck in Hrun.
    eexists. split; [apply run_failed, Hrun|]. repeat split.
  - intros [Hlo Hhi].
    assert (H9 : (9 <? n) = false) by (apply Z.ltb_ge; lia).
    assert (H0 : (n <? 0) = false) by (apply Z.ltb_ge; lia).
    rewrite H9, H0 in Hck. now rewrite Hck.
Qed.


End Startup.

Lemma indentation_count_is_validated_witness :
  let opts := flagsOf false false false false false false false (Some (-1)) in
  let X := demo opts (<["NO_COLOR" := "1"]> ∅) [] identity in
  exists c',
    run X [] fresh = (c', exitCodeDefaultErr)
    /\ errStream c'
       = errStream fresh
         +:+ (name +:+ ": " +:+ ("negative indentation count: " +:+ fmt_d (-1))
              +:+ LF)
    /\ outStream c' = outStream fresh
    /\ trace c' = trace fresh.
Proof.
  cbv zeta.
  apply (indentation_count_is_validated
           (demo (flagsOf false false false false false false false (Some (-1)))
              (<["NO_COLOR" := "1"]> ∅) [] identity)
           [] [] (flagsOf false false false false false false false (Some (-1)))
           fresh (-1)); [reflexivity | reflexivity | reflexivity | reflexivity | lia].
Defined.

(** C4, counterexample.  A command line that also asks for the version
    prints the version and succeeds although its indentation count is
    negative; and with colour forced on and a colour scheme that does
    not load, the run fails with the message of the colour scheme, not
    with the one of the indentation count. *)
Lemma version_skips_indentation_check :
  let opts := flagsOf false false false false false false true (Some (-1)) in
  let X := demo opts ∅ [] identity in
  let opts' := flagsOf false true false false false false false (Some (-1)) in
  let X' := demo opts' (<["GOJQ_COLORS" := "x"]> ∅) [] identity in
  run X [] fresh = (write_out (versionLine X) fresh, exitCodeOK)
  /\ errStream (fst (run X' [] fresh)) = "gojq: invalid color: x" +:+ LF.
Proof.
  cbv zeta. split; vm_compute; reflexivity.
Qed.



(** ** The run loop *)

Ltac case_var :=
  match goal with
  | |- context [if ?b then _ else _] => is_var b; destruct b
  | |- context [negb ?b] => is_var b; destruct b
  | |- context [andb ?b _] => is_var b; destruct b
  | |- context [orb ?b _] => is_var b; destruct b
  | |- context [match ?x with Some _ => _ | None => _ end] =>
      is_var x; destruct x
  | |- context [falsy ?v] => destruct (falsy v)
  | |- context [IsEmptyError ?e] => destruct (IsEmptyError e) as [[|]|]
  end.

Ltac frame :=
  unfold separate, track, terminate, funcDebug, funcStderr, printError,
    write_out, write_err, note, settings, terminator;
  match goal with c : cli |- _ => destruct c end;
  cbn; repeat (case_var; cbn);
  rewrite ?append_nil_r, ?append_assoc; reflexivity.

Section Loop.

Variable X : Collaborators.

Lemma settings_createMarshaler (c c' : cli) :
  settings c' = settings c -> createMarshaler c' = createMarshaler c.
Proof.
  unfold settings, createMarshaler. intros [= -> -> -> -> -> -> -> _ _].
  reflexivity.
Qed.

Lemma settings_terminator (c c' : cli) :
  settings c' = settings c -> terminator c' = terminator c.
Proof.
  unfold settings, terminator. intros [= _ _ -> -> -> _ _ _ _]. reflexivity.
Qed.

Lemma printed_settings v bytes c : settings (printed v bytes c) = settings c.
Proof. unfold printed. frame. Qed.

Lemma printed_outStream v bytes c :
  outStream (printed v bytes c)
  = outStream c
    +:+ ((if outputYAMLSeparator c then "---" +:+ LF else EmptyString)
         +:+ bytes +:+ terminator c).
Proof. unfold printed. frame. Qed.

Lemma printed_errStream v bytes c : errStream (printed v bytes c) = errStream c.
Proof. unfold printed. frame. Qed.

Lemma printed_separator v bytes c :
  outputYAMLSeparator (printed v bytes c)
  = outputYAMLSeparator c || outputYAML c.
Proof. unfold printed. frame. Qed.

Lemma printed_trace v bytes c :
  trace (printed v bytes c) = trace c ++ [EvMarshalled v].
Proof. unfold printed. frame. Qed.

Lemma printed_exitCodeError v bytes c :
  exitCodeError (printed v bytes c)
  = match exitCodeError c with
    | Some _ =>
        Some (exitCodeError_lit
                (if falsy v then exitCodeFalsyErr else exitCodeOK))
    | None => None
    end.
Proof. unfold printed. frame. Qed.

Lemma printValues_loop_value m v iter c :
  printValues_loop X m (Yield (IValue v) :: iter) c
  = match snd (marshal X (noColor c) m v) with
    | Some err =>
        (write_out (fst (marshal X (noColor c) m v)) (separate c), Some err)
    | None =>
        printValues_loop X m iter
          (printed v (fst (marshal X (noColor c) m v)) c)
    end.
Proof.
  cbn [printValues_loop].
  replace (noColor (separate c)) with (noColor c) by frame.
  destruct (marshal X (noColor c) m v) as [bytes [err|]]; reflexivity.
Qed.

(** *** What [printValues] leaves alone *)

Lemma printValues_loop_settings m iter c :
  settings (fst (printValues_loop X m iter c)) = settings c.
Proof.
  revert c. induction iter as [|[[v|err]|v|v] iter IH]; intros c.
  - reflexivity.
  - rewrite printValues_loop_value.
    destruct (snd (marshal X (noColor c) m v)); cbn [fst].
    + generalize (fst (marshal X (noColor c) m v)). intros bytes. frame.
    + rewrite IH. apply printed_settings.
  - reflexivity.
  - cbn [printValues_loop]. rewrite IH. frame.
  - cbn [printValues_loop]. rewrite IH. frame.
Qed.

Lemma printValues_settings iter c :
  settings (fst (printValues X iter c)) = settings c.
Proof. apply printValues_loop_settings. Qed.

Lemma settings_noColor c c' : settings c' = settings c -> noColor c' = noColor c.
Proof. unfold settings. congruence. Qed.

Lemma settings_outputYAML c c' :
  settings c' = settings c -> outputYAML c' = outputYAML c.
Proof. unfold settings. congruence. Qed.

Lemma settings_argvalues c c' :
  settings c' = settings c -> argvalues c' = argvalues c.
Proof. unfold settings. congruence. Qed.

Lemma printError_settings err c : settings (printError err c) = settings c.
Proof. frame. Qed.

Lemma printError_outStream err c : outStream (printError err c) = outStream c.
Proof. frame. Qed.

Lemma printError_separator err c :
  outputYAMLSeparator (printError err c) = outputYAMLSeparator c.
Proof. frame. Qed.

Lemma printError_trace err c : trace (printError err c) = trace c.
Proof. frame. Qed.

Lemma printError_exitCodeError err c :
  exitCodeError (printError err c) = exitCodeError c.
Proof. frame. Qed.


(** One marked as reported is not printed. *)
Lemma printError_reported err c :
  IsEmptyError err = Some true -> printError err c = c.
Proof. intros H. unfold printError. now rewrite H. Qed.

(** *** YAML documents and their separator *)

Lemma yamlStream_app started docs docs' :
  yamlStream started (docs ++ docs')
  = yamlStream started docs
    +:+ yamlStream (startedAfter started docs) docs'.
Proof.
  revert started. induction docs as [|d docs IH]; intros started.
  - reflexivity.
  - cbn [app yamlStream startedAfter]. rewrite IH, !append_assoc.
    now destruct docs.
Qed.

Lemma startedAfter_app started docs docs' :
  startedAfter (startedAfter started docs) docs'
  = startedAfter started (docs ++ docs').
Proof. now destruct docs, docs'. Qed.

Lemma printValues_loop_yaml m iter c :
  outputYAML c = true ->
  outStream (fst (printValues_loop X m iter c))
  = outStream c
    +:+ yamlStream (outputYAMLSeparator c) (documentsOf X (noColor c) m iter)
  /\ outputYAMLSeparator (fst (printValues_loop X m iter c))
     = startedAfter (outputYAMLSeparator c) (documentsOf X (noColor c) m iter).
Proof.
  revert c. induction iter as [|[[v|err]|v|v] iter IH]; intros c Hy.
  - cbn. now rewrite append_nil_r.
  - rewrite printValues_loop_value. cbn [documentsOf].
    destruct (snd (marshal X (noColor c) m v)); cbn [fst].
    + generalize (fst (marshal X (noColor c) m v)). intros bytes.
      cbn [yamlStream startedAfter]. split.
      * unfold separate. destruct (outputYAMLSeparator c);
          cbn; now rewrite ?append_nil_r, ?append_assoc.
      * unfold separate, write_out.
        destruct (outputYAMLSeparator c) eqn:E; cbn; congruence.
    + set (bytes := fst (marshal X (noColor c) m v)).
      destruct (IH (printed v bytes c)) as [Ho Hs].
      { rewrite (settings_outputYAML _ _ (printed_settings v bytes c)).
        exact Hy. }
      rewrite (settings_noColor _ _ (printed_settings v bytes c)) in Ho, Hs.
      rewrite printed_separator, Hy, orb_true_r in Ho, Hs.
      rewrite Ho, Hs, printed_outStream. cbn [yamlStream startedAfter].
      unfold terminator. rewrite Hy, andb_false_r.
      split; [|now destruct (documentsOf X (noColor c) m iter)].
      now rewrite !append_assoc.
  - cbn. now rewrite append_nil_r.
  - cbn [printValues_loop documentsOf].
    destruct (IH (funcDebug X v c)) as [Ho Hs]; [rewrite <- Hy; frame|].
    rewrite Ho, Hs.
    replace (noColor (funcDebug X v c)) with (noColor c) by frame.
    replace (outputYAMLSeparator (funcDebug X v c))
      with (outputYAMLSeparator c) by frame.
    replace (outStream (funcDebug X v c)) with (outStream c) by frame.
    split; reflexivity.
  - cbn [printValues_loop documentsOf].
    destruct (IH (funcStderr X v c)) as [Ho Hs]; [rewrite <- Hy; frame|].
    rewrite Ho, Hs.
    replace (noColor (funcStderr X v c)) with (noColor c) by frame.
    replace (outputYAMLSeparator (funcStderr X v c))
      with (outputYAMLSeparator c) by frame.
    replace (outStream (funcStderr X v c)) with (outStream c) by frame.
    split; reflexivity.
Qed.

Lemma process_loop_settings code iter err c :
  settings (fst (process_loop X code iter err c)) = settings c.
Proof.
  revert err c. induction iter as [|[v|er] iter IH]; intros err c.
  - reflexivity.
  - cbn [process_loop].
    set (c0 := note (EvRun v) (note (EvNext (IValue v)) c)).
    assert (H0 : settings c0 = settings c) by (subst c0; frame).
    pose proof (printValues_settings (code v (argvalues c0)) c0) as Hp.
    destruct (printValues X (code v (argvalues c0)) c0) as [c1 [er|]];
      cbn [fst] in Hp; rewrite IH.
    + now rewrite printError_settings, Hp.
    + now rewrite Hp.
  - cbn [process_loop]. rewrite IH, printError_settings. frame.
Qed.

Lemma process_loop_yaml code iter err c :
  outputYAML c = true ->
  outStream (fst (process_loop X code iter err c))
  = outStream c
    +:+ yamlStream (outputYAMLSeparator c) (documents X code iter c)
  /\ outputYAMLSeparator (fst (process_loop X code iter err c))
     = startedAfter (outputYAMLSeparator c) (documents X code iter c).
Proof.
  revert err c. induction iter as [|[v|er] iter IH]; intros err c Hy.
  - cbn. now rewrite append_nil_r.
  - cbn [process_loop].
    set (c0 := note (EvRun v) (note (EvNext (IValue v)) c)).
    assert (H0 : settings c0 = settings c) by (subst c0; frame).
    assert (Hy0 : outputYAML c0 = true)
      by (now rewrite (settings_outputYAML _ _ H0)).
    assert (Ho0 : outStream c0 = outStream c) by (subst c0; frame).
    assert (Hs0 : outputYAMLSeparator c0 = outputYAMLSeparator c)
      by (subst c0; frame).
    clearbody c0.
    rewrite (settings_argvalues _ _ H0). unfold printValues.
    pose proof (printValues_loop_settings (createMarshaler c0)
                  (code v (argvalues c)) c0) as Hp.
    destruct (printValues_loop_yaml (createMarshaler c0)
                (code v (argvalues c)) c0 Hy0) as [Ho Hs].
    rewrite (settings_noColor _ _ H0), (settings_createMarshaler _ _ H0)
      in Ho, Hs.
    rewrite (settings_createMarshaler _ _ H0) in Hp |- *.
    rewrite Ho0 in Ho. rewrite Hs0 in Ho, Hs. rewrite H0 in Hp.
    change (documents X code (IValue v :: iter) c)
      with (documentsOf X (noColor c) (createMarshaler c)
              (code v (argvalues c)) ++ documents X code iter c).
    set (docs := documentsOf X (noColor c) (createMarshaler c)
                   (code v (argvalues c))) in *.
    assert (Hdocs : forall c1,
               settings c1 = settings c ->
               documents X code iter c1 = documents X code iter c).
    { intros c1 H1. unfold documents.
      now rewrite (settings_noColor _ _ H1), (settings_argvalues _ _ H1),
        (settings_createMarshaler _ _ H1). }
    rewrite yamlStream_app, <- startedAfter_app, <- append_assoc.
    destruct (printValues_loop X (createMarshaler c)
                (code v (argvalues c)) c0) as [c1 [er|]];
      cbn [fst] in Hp, Ho, Hs.
    + destruct (IH (Some (emptyError er)) (printError er c1)) as [Ho' Hs'].
      { now rewrite (settings_outputYAML _ _ (printError_settings er c1)),
          (settings_outputYAML _ _ Hp). }
      rewrite Ho', Hs', printError_outStream, printError_separator, Ho, Hs.
      rewrite Hdocs; [split; reflexivity|].
      now rewrite printError_settings, Hp.
    + destruct (IH err c1) as [Ho' Hs'].
      { now rewrite (settings_outputYAML _ _ Hp). }
      rewrite Ho', Hs', Ho, Hs.
      rewrite Hdocs; [split; reflexivity|].
      now rewrite Hp.
  - cbn [process_loop].
    set (c0 := printError er (note (EvNext (IError er)) c)).
    assert (H0 : settings c0 = settings c) by (subst c0; frame).
    assert (Ho0 : outStream c0 = outStream c) by (subst c0; frame).
    assert (Hs0 : outputYAMLSeparator c0 = outputYAMLSeparator c)
      by (subst c0; frame).
    destruct (IH (Some (emptyError er)) c0) as [Ho Hs].
    { now rewrite (settings_outputYAML _ _ H0). }
    rewrite Ho, Hs, Ho0, Hs0.
    change (documents X code (IError er :: iter) c)
      with (documents X code iter c).
    assert (Hdocs : documents X code iter c0 = documents X code iter c).
    { unfold documents.
      now rewrite (settings_noColor _ _ H0), (settings_argvalues _ _ H0),
        (settings_createMarshaler _ _ H0). }
    rewrite Hdocs. split; reflexivity.
Qed.


End Loop.


(** Two input records under YAML output: one stream, one separator. *)
Example yaml_two_records :
  let opts := flagsOf false false true false false false false None in
  outStream
    (fst (process (demo opts ∅ [] identity)
            [IValue (VNumber 1); IValue (VNumber 2)] identity
            (assignOutputFlags opts fresh)))
  = "1" +:+ LF +:+ "---" +:+ LF +:+ "2" +:+ LF.
Proof. reflexivity. Qed.

Section Bookkeeping.

Variable X : Collaborators.

(** *** The instrumentation *)

Lemma pulled_snoc tr e :
  pulled (tr ++ [e])
  = pulled tr ++ match e with EvNext x => [x] | _ => [] end.
Proof. unfold pulled. rewrite flat_map_app. cbn. now rewrite app_nil_r. Qed.

Lemma evaluated_snoc tr e :
  evaluated (tr ++ [e])
  = evaluated tr ++ match e with EvRun v => [v] | _ => [] end.
Proof. unfold evaluated. rewrite flat_map_app. cbn. now rewrite app_nil_r. Qed.

Lemma marshalled_snoc tr e :
  marshalled (tr ++ [e])
  = marshalled tr ++ match e with EvMarshalled v => [v] | _ => [] end.
Proof.
  unfold marshalled. rewrite flat_map_app. cbn. now rewrite app_nil_r.
Qed.

(** [printValues] pulls no input and starts no evaluation. *)
Lemma printValues_loop_trace m iter c :
  pulled (trace (fst (printValues_loop X m iter c))) = pulled (trace c)
  /\ evaluated (trace (fst (printValues_loop X m iter c)))
     = evaluated (trace c).
Proof.
  revert c. induction iter as [|[[v|err]|v|v] iter IH]; intros c.
  - split; reflexivity.
  - rewrite printValues_loop_value.
    destruct (snd (marshal X (noColor c) m v)); cbn [fst].
    + generalize (fst (marshal X (noColor c) m v)). intros bytes.
      replace (trace (write_out bytes (separate c))) with (trace c) by frame.
      split; reflexivity.
    + destruct (IH (printed v (fst (marshal X (noColor c) m v)) c))
        as [Hp He].
      rewrite Hp, He, printed_trace, pulled_snoc, evaluated_snoc.
      now rewrite !app_nil_r.
  - split; reflexivity.
  - cbn [printValues_loop]. destruct (IH (funcDebug X v c)) as [Hp He].
    rewrite Hp, He.
    replace (trace (funcDebug X v c)) with (trace c) by frame.
    split; reflexivity.
  - cbn [printValues_loop]. destruct (IH (funcStderr X v c)) as [Hp He].
    rewrite Hp, He.
    replace (trace (funcStderr X v c)) with (trace c) by frame.
    split; reflexivity.
Qed.

(** The run loop pulls every record of the input iterator, in order,
    whatever the records are, and hands every value among them to the
    engine once. *)
Lemma process_loop_trace code iter err c :
  pulled (trace (fst (process_loop X code iter err c)))
  = pulled (trace c) ++ iter
  /\ evaluated (trace (fst (process_loop X code iter err c)))
     = evaluated (trace c) ++ valuesOf iter.
Proof.
  revert err c. induction iter as [|[v|er] iter IH]; intros err c.
  - cbn. now rewrite !app_nil_r.
  - cbn [process_loop].
    set (c0 := note (EvRun v) (note (EvNext (IValue v)) c)).
    assert (Hp0 : pulled (trace c0) = pulled (trace c) ++ [IValue v]).
    { subst c0. unfold note. cbn [trace set_trace].
      now rewrite !pulled_snoc, app_nil_r. }
    assert (He0 : evaluated (trace c0) = evaluated (trace c) ++ [v]).
    { subst c0. unfold note. cbn [trace set_trace].
      now rewrite !evaluated_snoc, app_nil_r. }
    clearbody c0. unfold printValues.
    destruct (printValues_loop_trace (createMarshaler c0)
                (code v (argvalues c0)) c0) as [Hp He].
    destruct (printValues_loop X (createMarshaler c0)
                (code v (argvalues c0)) c0) as [c1 [er|]];
      cbn [fst] in Hp, He.
    + destruct (IH (Some (emptyError er)) (printError er c1)) as [Hp' He'].
      rewrite Hp', He', printError_trace, Hp, He, Hp0, He0.
      cbn [valuesOf flat_map]. now rewrite <- !app_assoc.
    + destruct (IH err c1) as [Hp' He'].
      rewrite Hp', He', Hp, He, Hp0, He0.
      cbn [valuesOf flat_map]. now rewrite <- !app_assoc.
  - cbn [process_loop].
    destruct (IH (Some (emptyError er))
                (printError er (note (EvNext (IError er)) c))) as [Hp He].
    rewrite Hp, He, printError_trace. unfold note. cbn [trace set_trace].
    rewrite pulled_snoc, evaluated_snoc, app_nil_r.
    cbn [valuesOf flat_map app]. now rewrite <- app_assoc.
Qed.

(** *** The exit status under exit-status mode *)

Lemma statusOf_snoc printed v :
  statusOf (printed ++ [v])
  = if falsy v then exitCodeFalsyErr else exitCodeOK.
Proof. unfold statusOf. now rewrite last_snoc. Qed.

Lemma printed_tracking v bytes c :
  tracking c -> tracking (printed v bytes c).
Proof.
  unfold tracking. intros H.
  rewrite printed_exitCodeError, H, printed_trace, marshalled_snoc.
  rewrite statusOf_snoc. now destruct (falsy v).
Qed.

Lemma printValues_loop_tracking m iter c :
  tracking c -> tracking (fst (printValues_loop X m iter c)).
Proof.
  revert c. induction iter as [|[[v|err]|v|v] iter IH]; intros c H.
  - exact H.
  - rewrite printValues_loop_value.
    destruct (snd (marshal X (noColor c) m v)); cbn [fst].
    + generalize (fst (marshal X (noColor c) m v)). intros bytes.
      unfold tracking in *.
      replace (trace (write_out bytes (separate c))) with (trace c) by frame.
      replace (exitCodeError (write_out bytes (separate c)))
        with (exitCodeError c) by frame.
      exact H.
    + apply IH, printed_tracking, H.
  - exact H.
  - cbn [printValues_loop]. apply IH. unfold tracking in *.
    replace (trace (funcDebug X v c)) with (trace c) by frame.
    replace (exitCodeError (funcDebug X v c)) with (exitCodeError c) by frame.
    exact H.
  - cbn [printValues_loop]. apply IH. unfold tracking in *.
    replace (trace (funcStderr X v c)) with (trace c) by frame.
    replace (exitCodeError (funcStderr X v c)) with (exitCodeError c) by frame.
    exact H.
Qed.

Lemma note_tracking e c :
  match e with EvMarshalled _ => False | _ => True end ->
  tracking c -> tracking (note e c).
Proof.
  unfold tracking, note. cbn [trace exitCodeError set_trace].
  intros He H. rewrite marshalled_snoc, H.
  destruct e; [| |contradiction]; now rewrite app_nil_r.
Qed.

Lemma printError_tracking err c : tracking c -> tracking (printError err c).
Proof.
  unfold tracking. now rewrite printError_exitCodeError, printError_trace.
Qed.

Lemma process_loop_tracking code iter err c :
  tracking c -> tracking (fst (process_loop X code iter err c)).
Proof.
  revert err c. induction iter as [|[v|er] iter IH]; intros err c H.
  - exact H.
  - cbn [process_loop].
    set (c0 := note (EvRun v) (note (EvNext (IValue v)) c)).
    assert (H0 : tracking c0)
      by (subst c0; repeat apply note_tracking; auto; exact I).
    clearbody c0. unfold printValues.
    pose proof (printValues_loop_tracking (createMarshaler c0)
                  (code v (argvalues c0)) c0 H0) as H1.
    destruct (printValues_loop X (createMarshaler c0)
                (code v (argvalues c0)) c0) as [c1 [er|]]; cbn [fst] in H1.
    + apply IH, printError_tracking, H1.
    + apply IH, H1.
  - cbn [process_loop]. apply IH, printError_tracking, note_tracking;
      [exact I | exact H].
Qed.




(** *** Errors in the result sequence and in the input *)

(** [printValues] stops at the first failure: what follows in the
    result sequence is not looked at. *)
Lemma printValues_loop_app m pre post c :
  printValues_loop X m (pre ++ post) c
  = match printValues_loop X m pre c with
    | (c', Some err) => (c', Some err)
    | (c', None) => printValues_loop X m post c'
    end.
Proof.
  revert c. induction pre as [|[[v|err]|v|v] pre IH]; intros c.
  - reflexivity.
  - cbn [app]. rewrite !printValues_loop_value.
    destruct (snd (marshal X (noColor c) m v)); [reflexivity|apply IH].
  - reflexivity.
  - cbn [app printValues_loop]. apply IH.
  - cbn [app printValues_loop]. apply IH.
Qed.

Lemma printValues_loop_stops m pre err post c :
  printValues_loop X m (pre ++ Yield (IError err) :: post) c
  = printValues_loop X m (pre ++ [Yield (IError err)]) c.
Proof.
  rewrite !printValues_loop_app.
  now destruct (printValues_loop X m pre c) as [c' [e|]].
Qed.

(** The run loop over a concatenation: the second part starts from the
    receiver and the recorded failure that the first part leaves. *)
Lemma process_loop_app code pre post err c :
  process_loop X code (pre ++ post) err c
  = let '(c', err') := process_loop X code pre err c in
    process_loop X code post err' c'.
Proof.
  revert err c. induction pre as [|[v|er] pre IH]; intros err c.
  - reflexivity.
  - cbn [app process_loop].
    destruct (printValues X
                (code v (argvalues (note (EvRun v) (note (EvNext (IValue v)) c))))
                (note (EvRun v) (note (EvNext (IValue v)) c)))
      as [c1 [er|]]; apply IH.
  - cbn [app process_loop]. apply IH.
Qed.

(** A recorded failure is never forgotten. *)
Lemma process_loop_failure code iter err c :
  (exists er, err = Some (emptyError er)) ->
  exists er, snd (process_loop X code iter err c) = Some (emptyError er).
Proof.
  revert err c. induction iter as [|[v|er] iter IH]; intros err c H.
  - exact H.
  - cbn [process_loop].
    destruct (printValues X
                (code v (argvalues (note (EvRun v) (note (EvNext (IValue v)) c))))
                (note (EvRun v) (note (EvNext (IValue v)) c)))
      as [c1 [er|]]; apply IH; eauto.
  - cbn [process_loop]. apply IH. eauto.
Qed.

End Bookkeeping.

(** ** Whole runs *)

Section Runs.

Variable X : Collaborators.

Lemma bind_untouched k val c : untouched (bind k val c) = untouched c.
Proof. reflexivity. Qed.

Lemma bindArgs_untouched kvs c : untouched (bindArgs kvs c) = untouched c.
Proof.
  revert c. induction kvs as [|[k v] kvs IH]; intros c; [reflexivity|].
  cbn [bindArgs]. now rewrite IH.
Qed.

Lemma bindArgsJSON_untouched kvs c :
  untouched (fst (bindArgsJSON X kvs c)) = untouched c.
Proof.
  revert c. induction kvs as [|[k v] kvs IH]; intros c; [reflexivity|].
  cbn [bindArgsJSON].
  destruct (first_Next (decodeString X v ("$" +:+ k))); [|reflexivity].
  now rewrite IH.
Qed.

Lemma bindSlurpFile_untouched kvs c :
  untouched (fst (bindSlurpFile X kvs c)) = untouched c.
Proof.
  revert c. induction kvs as [|[k v] kvs IH]; intros c; [reflexivity|].
  cbn [bindSlurpFile]. destruct (slurpFile X v); [reflexivity|].
  now rewrite IH.
Qed.

Lemma bindRawFile_untouched kvs c :
  untouched (fst (bindRawFile X kvs c)) = untouched c.
Proof.
  revert c. induction kvs as [|[k v] kvs IH]; intros c; [reflexivity|].
  cbn [bindRawFile]. destruct (ReadFile X v); [reflexivity|].
  now rewrite IH.
Qed.

(** The checks and bindings write nothing, pull nothing and leave the
    separator flag and the exit status as they are. *)
Lemma configure_untouched opts args c :
  untouched (fst (configure X opts args c)) = untouched c.
Proof.
  unfold configure, configureRest.
  destruct (loadColors X c); [reflexivity|].
  destruct (checkIndent c); [reflexivity|].
  destruct (OutputYAML opts && OutputTab opts); [reflexivity|].
  pose proof (bindArgsJSON_untouched (ArgsJSON opts)
                (bindArgs (Args opts) (assignInputFlags opts c))) as H1.
  destruct (bindArgsJSON X (ArgsJSON opts)
              (bindArgs (Args opts) (assignInputFlags opts c)))
    as [c1 [e|]]; cbn [fst] in H1.
  { cbn [fst]. now rewrite H1, bindArgs_untouched. }
  pose proof (bindSlurpFile_untouched (SlurpFile opts) c1) as H2.
  destruct (bindSlurpFile X (SlurpFile opts) c1) as [c2 [e|]];
    cbn [fst] in H2.
  { cbn [fst]. now rewrite H2, H1, bindArgs_untouched. }
  pose proof (bindRawFile_untouched (RawFile opts) c2) as H3.
  destruct (bindRawFile X (RawFile opts) c2) as [c3 [e|]]; cbn [fst] in H3.
  { cbn [fst]. now rewrite H3, H2, H1, bindArgs_untouched. }
  destruct (querySource X opts args); cbn [fst];
    now rewrite H3, H2, H1, bindArgs_untouched.
Qed.

Lemma untouched_trace c c' : untouched c' = untouched c -> trace c' = trace c.
Proof. unfold untouched. congruence. Qed.

(** A run that gets through the start-up: it is the run loop, followed
    in exit-status mode by the deferred function, followed by the
    restoration of [noColor]. *)
Lemma runInternal_processing (args rest rest' : list string)
  (opts : flagopts) (c c1 : cli) (arg fname : string) (iter : inputIter)
  (code : Code) :
  ParseArgs X args = Parsed opts rest ->
  Version opts = false ->
  configure X opts rest (configured X opts c) = (c1, inr (arg, fname, rest')) ->
  prepare X opts arg fname rest' c1 = inr (iter, code) ->
  runInternal X args c
  = let '(c', err) := process X (yields X iter) code (armed opts c1) in
    (set_noColor (noColor c) c',
     if ExitStatus opts then exitStatusDeferred c' err else err).
Proof.
  intros Hp Hv Hc Hpre.
  rewrite (runInternal_parsed X args rest opts c Hp Hv), Hc.
  unfold runQuery, evaluate, armed.
  destruct (ExitStatus opts).
  - change (prepare X opts arg fname rest'
              (set_exitCodeError
                 (Some (exitCodeError_lit exitCodeNoValueErr)) c1))
      with (prepare X opts arg fname rest' c1).
    rewrite Hpre.
    now destruct (process X (yields X iter) code
                    (set_exitCodeError
                       (Some (exitCodeError_lit exitCodeNoValueErr)) c1)).
  - rewrite Hpre.
    now destruct (process X (yields X iter) code c1).
Qed.



End Runs.


(** The last value of the whole run decides, not the last value of some
    record: [true] then [false] exits with the falsy code, [false] then
    [true] with success, and no input at all with the no-value code. *)
Example exit_status_examples :
  let opts := flagsOf false false false false false true false None in
  let run_on stdin := snd (run (demo opts ∅ stdin identity) [] fresh) in
  run_on [IValue (VBool true); IValue (VBool false)] = exitCodeFalsyErr
  /\ run_on [IValue (VBool false); IValue (VBool true)] = exitCodeOK
  /\ run_on [IValue VNull] = exitCodeFalsyErr
  /\ run_on [] = exitCodeNoValueErr.
Proof. cbv zeta. repeat split; vm_compute; reflexivity. Qed.




(** The same run, computed: both values are printed, the diagnostic
    appears once, and the exit code is the default failure code. *)
Example bad_record_between_two_values :
  let opts := flagsOf false false false false false false false None in
  let stdin := [IValue (VNumber 1); IError (errorString "invalid json");
                IValue (VNumber 2)] in
  let r := run (demo opts (<["NO_COLOR" := "1"]> ∅) stdin identity) [] fresh in
  outStream (fst r) = "1" +:+ LF +:+ "2" +:+ LF
  /\ errStream (fst r) = "gojq: invalid json" +:+ LF
  /\ snd r = exitCodeDefaultErr.
Proof. cbv zeta. repeat split; vm_compute; reflexivity. Qed.

(** ** Errors in the result sequence *)

Section ResultErrors.

Variable X : Collaborators.
Variable Marshal : Part000.marshaler -> value -> error + string.

(** The earlier [printValue] also returns at the first error it is
    handed. *)
Lemma printValue_loop_stops m pre err post c :
  Part000.printValue_loop Marshal m (pre ++ Part000.RError err :: post) c
  = Part000.printValue_loop Marshal m (pre ++ [Part000.RError err]) c.
Proof.
  revert c. induction pre as [|[e|v0 v1|x] pre IH]; intros c.
  - reflexivity.
  - reflexivity.
  - cbn [app Part000.printValue_loop].
    destruct v0 as [| | |s| |].
    4: { destruct (String.eqb s "HALT:"); [reflexivity|].
         match goal with
         | |- context [Part000.emit Marshal ?m' ?w ?x ?c'] =>
             destruct (Part000.emit Marshal m' w x c') as [c1 [e|]]
         end; [reflexivity|apply IH]. }
    all: match goal with
         | |- context [Part000.emit Marshal ?m' ?w ?x ?c'] =>
             destruct (Part000.emit Marshal m' w x c') as [c1 [e|]]
         end; [reflexivity|apply IH].
  - cbn [app Part000.printValue_loop].
    destruct (Part000.emit Marshal m Part000.toOut x c) as [c1 [e|]];
      [reflexivity|apply IH].
Qed.

(** C2, as amended.  When the result sequence of an input value holds an
    error, [printValues] returns at the first failure: nothing after the
    error is attempted (the outcome does not depend on it).  The run
    loop prints the failure that [printValues] returns, which is that
    error whenever everything before it was printed, records it, and
    goes on with the next input record.  The earlier [printValue]
    returns at the error in the same way. *)
Theorem result_error_ends_the_result_sequence (code : Code) (v : value)
  (iter : list item) (recorded : option error) (c : cli)
  (pre post : list step) (err : error) :
  code v (argvalues c) = pre ++ Yield (IError err) :: post ->
  let c0 := note (EvRun v) (note (EvNext (IValue v)) c) in
  printValues X (pre ++ Yield (IError err) :: post) c0
  = printValues X (pre ++ [Yield (IError err)]) c0
  /\ (exists c1 er,
        printValues X (code v (argvalues c)) c0 = (c1, Some er)
        /\ (snd (printValues X pre c0) = None -> er = err)
        /\ process_loop X code (IValue v :: iter) recorded c
           = process_loop X code iter (Some (emptyError er))
               (printError er c1))
  /\ (forall m pre' post' c',
        Part000.printValue_loop Marshal m
          (pre' ++ Part000.RError err :: post') c'
        = Part000.printValue_loop Marshal m (pre' ++ [Part000.RError err]) c').
Proof.
  intros Hcode c0. split; [|split].
  - apply printValues_loop_stops.
  - cbn [process_loop]. fold c0.
    change (argvalues c0) with (argvalues c). rewrite Hcode.
    unfold printValues. rewrite printValues_loop_app.
    destruct (printValues_loop X (createMarshaler c0) pre c0) as [c1 [e|]].
    + exists c1, e. repeat split. discriminate.
    + exists c1, err. repeat split.
  - intros m pre' post' c'. apply printValue_loop_stops.
Qed.

End ResultErrors.

Lemma result_error_ends_the_result_sequence_witness :
  let opts := flagsOf false false false false false false false None in
  let X := demo opts ∅ [] identity in
  let err := errorString "boom" in
  let code : Code :=
    fun _ _ => [Yield (IValue (VNumber 1)); Yield (IError err);
                Yield (IValue (VNumber 2))] in
  let c0 := note (EvRun VNull) (note (EvNext (IValue VNull)) fresh) in
  printValues X ([Yield (IValue (VNumber 1))]
                 ++ Yield (IError err) :: [Yield (IValue (VNumber 2))]) c0
  = printValues X ([Yield (IValue (VNumber 1))] ++ [Yield (IError err)]) c0
  /\ (exists c1 er,
        printValues X (code VNull (argvalues fresh)) c0 = (c1, Some er)
        /\ (snd (printValues X [Yield (IValue (VNumber 1))] c0) = None ->
            er = err)
        /\ process_loop X code (IValue VNull :: []) None fresh
           = process_loop X code [] (Some (emptyError er))
               (printError er c1))
  /\ (forall m pre' post' c',
        Part000.printValue_loop (fun _ v => inr (render v)) m
          (pre' ++ Part000.RError err :: post') c'
        = Part000.printValue_loop (fun _ v => inr (render v)) m
            (pre' ++ [Part000.RError err]) c').
Proof.
  cbv zeta.
  apply (result_error_ends_the_result_sequence
           (demo (flagsOf false false false false false false false None)
              ∅ [] identity)
           (fun _ v => inr (render v))
           (fun _ _ => [Yield (IValue (VNumber 1));
                        Yield (IError (errorString "boom"));
                        Yield (IValue (VNumber 2))])
           VNull [] None fresh
           [Yield (IValue (VNumber 1))] [Yield (IValue (VNumber 2))]
           (errorString "boom")).
  reflexivity.
Defined.

(** C2, counterexample.  The engine yields 1, an error, 2 for the only
    input record: 1 is printed, the error is reported, and 2, which
    follows the error in the same result sequence, is never marshalled
    nor written. *)
Lemma value_after_error_is_not_printed :
  let opts := flagsOf false false false false false false false None in
  let code : Code :=
    fun _ _ => [Yield (IValue (VNumber 1)); Yield (IError (errorString "boom"));
                Yield (IValue (VNumber 2))] in
  let X := demo opts (<["NO_COLOR" := "1"]> ∅) [IValue VNull] code in
  outStream (fst (run X [] fresh)) = "1" +:+ LF
  /\ errStream (fst (run X [] fresh)) = "gojq: boom" +:+ LF
  /\ marshalled (trace (fst (run X [] fresh))) = [VNumber 1].
Proof. cbv zeta. repeat split; vm_compute; reflexivity. Qed.

(** ** Slurp *)

Module Part000Facts.

Import Part000.

Section Slurp.

Variable Marshal : marshaler -> value -> error + string.
Variable jsonParseError : string -> string -> error -> error.

Lemma earlier_evaluated_snoc tr e :
  evaluated (tr ++ [e])
  = evaluated tr ++ match e with EvRun v => [v] | _ => [] end.
Proof. unfold evaluated. rewrite flat_map_app. cbn. now rewrite app_nil_r. Qed.

Lemma emit_evaluated m w x c :
  evaluated (trace (fst (emit Marshal m w x c))) = evaluated (trace c).
Proof.
  unfold emit. destruct (Marshal m x) as [err|xs]; [reflexivity|].
  cbn [fst].
  destruct c; destruct w; cbn -[evaluated];
    repeat match goal with
      | |- context [if ?b then _ else _] =>
          is_var b; destruct b; cbn -[evaluated]
      | |- context [negb ?b] => is_var b; destruct b; cbn -[evaluated]
      end;
    now rewrite earlier_evaluated_snoc, app_nil_r.
Qed.

(** The earlier [printValue] starts no evaluation. *)
Lemma printValue_loop_evaluated m v c :
  evaluated (trace (fst (printValue_loop Marshal m v c)))
  = evaluated (trace c).
Proof.
  revert c. induction v as [|[e|v0 v1|x] v IH]; intros c.
  - reflexivity.
  - reflexivity.
  - cbn [printValue_loop].
    destruct v0 as [| | |s| |].
    4: { destruct (String.eqb s "HALT:"); [reflexivity|].
         match goal with
         | |- context [emit Marshal ?m' ?w ?x ?c'] =>
             pose proof (emit_evaluated m' w x c') as He;
             destruct (emit Marshal m' w x c') as [c1 [e|]]
         end; cbn [fst] in He; [exact He|].
         now rewrite IH, He. }
    all: match goal with
         | |- context [emit Marshal ?m' ?w ?x ?c'] =>
             pose proof (emit_evaluated m' w x c') as He;
             destruct (emit Marshal m' w x c') as [c1 [e|]]
         end; cbn [fst] in He; [exact He|now rewrite IH, He].
  - cbn [printValue_loop].
    pose proof (emit_evaluated m toOut x c) as He.
    destruct (emit Marshal m toOut x c) as [c1 [e|]]; cbn [fst] in He;
      [exact He|now rewrite IH, He].
Qed.

Lemma processJSON_loop_slurp fname code docs vs c :
  inputSlurp c = true ->
  processJSON_loop Marshal jsonParseError fname code (map Doc docs) vs c
  = printValue Marshal (code (VArray (vs ++ docs)) (argvalues c))
      (note (EvRun (VArray (vs ++ docs))) c).
Proof.
  intros Hs. revert vs. induction docs as [|d docs IH]; intros vs.
  - cbn [map processJSON_loop]. rewrite Hs, app_nil_r. reflexivity.
  - cbn [map processJSON_loop]. rewrite Hs, IH, <- app_assoc. reflexivity.
Qed.



End Slurp.

End Part000Facts.


(** Three documents slurped by the earlier [processJSON]: one
    evaluation, of the array of the three, printed on one line. *)
Example slurp_three_documents :
  let c := {| Part000.outStream := EmptyString;
              Part000.errStream := EmptyString;
              Part000.outputCompact := true;
              Part000.outputRaw := false;
              Part000.outputJoin := false;
              Part000.outputYAML := false;
              Part000.inputRaw := false;
              Part000.inputSlurp := true;
              Part000.inputYAML := false;
              Part000.argnames := [];
              Part000.argvalues := [];
              Part000.outputYAMLSeparator := false;
              Part000.trace := [] |} in
  let r := Part000.processJSON (fun _ v => inr (render v))
             (fun _ _ err => err) "<stdin>"
             (map Part000.Doc [VNumber 1; VNumber 2; VNumber 3])
             (fun v _ => [Part000.RValue v]) c in
  Part000.outStream (fst r) = "[1,2,3]" +:+ LF
  /\ Part000.evaluated (Part000.trace (fst r))
     = [VArray [VNumber 1; VNumber 2; VNumber 3]]
  /\ snd r = None.
Proof. cbv zeta. repeat split. Qed.

(** The same behaviour in the later file, where slurping is an input
    iterator wrapped around the base iterator.  These three lemmas rest
    on the model of [newSlurpInputIter] given with [slurp]. *)
Lemma slurp_collects (docs vs : list value) :
  slurp (map IValue docs) vs = IValue (VArray (vs ++ docs)).
Proof.
  revert vs. induction docs as [|d docs IH]; intros vs.
  - cbn. now rewrite app_nil_r.
  - cbn [map slurp]. rewrite IH, <- app_assoc. reflexivity.
Qed.

Lemma createInputIter_slurp (args : list string) (c : cli) :
  inputSlurp c = true ->
  inputRaw c = false ->
  exists inner, createInputIter args c = newSlurpInputIter inner.
Proof.
  intros Hs Hr. unfold createInputIter. rewrite Hs, Hr. eauto.
Qed.

Lemma slurp_iterator_evaluates_once (X : Collaborators) (inner : inputIter)
  (code : Code) (c : cli) (docs : list value) :
  yields X inner = map IValue docs ->
  evaluated
    (trace (fst (process X (yields X (newSlurpInputIter inner)) code c)))
  = evaluated (trace c) ++ [VArray docs].
Proof.
  intros Hy. cbn [yields]. rewrite Hy, slurp_collects. unfold process.
  destruct (process_loop_trace X code [IValue (VArray ([] ++ docs))] None c)
    as [_ He].
  exact He.
Qed.

(** ** The filters [exec] and [execpipe] *)

Lemma collectStrings_strings (args cmds : list string) :
  collectStrings (map VString args) cmds = inr (cmds ++ args).
Proof.
  revert cmds. induction args as [|a args IH]; intros cmds.
  - cbn. now rewrite app_nil_r.
  - cbn [map collectStrings]. rewrite IH, <- app_assoc. reflexivity.
Qed.

Lemma funcExecImpl_runs (X : Collaborators) (funcname path : string)
  (args : list string) (i : value) (input : string) :
  match i with
  | VString s => input = s
  | VNull => input = EmptyString
  | _ => False
  end ->
  funcExecImpl X funcname i [VString path; VArray (map VString args)]
  = childOutcome funcname (cmd_Output X path args input).
Proof.
  intros Hi. unfold funcExecImpl, childOutcome, index. cbn [nth].
  rewrite collectStrings_strings. cbn [app].
  destruct i; try contradiction; subst input;
    destruct (cmd_err (cmd_Output X path args _)); try reflexivity;
    destruct (cmd_ExitCode (cmd_Output X path args _) =? 0); reflexivity.
Qed.

(** C7.  [exec] runs the executable with the given arguments and an
    empty standard input, whatever the input of the filter is;
    [execpipe] runs it with its string input as standard input, and with
    an empty one when its input is null; any other input is an error.
    In each case the result is the captured output, as it is, when
    [cmd.Output] reports no error and the status is zero, and an error
    when the status is not zero or [cmd.Output] reports one. *)
Theorem exec_and_execpipe (X : Collaborators) (path : string)
  (args : list string) :
  let i2 := [VString path; VArray (map VString args)] in
  (forall i,
      funcExec X i i2 = childOutcome "exec" (cmd_Output X path args EmptyString))
  /\ (forall input,
        funcExecPipe X (VString input) i2
        = childOutcome "execpipe" (cmd_Output X path args input))
  /\ funcExecPipe X VNull i2
     = childOutcome "execpipe" (cmd_Output X path args EmptyString)
  /\ (forall i i2',
        match i with VString _ | VNull => False | _ => True end ->
        exists err, funcExecPipe X i i2' = IError err)
  /\ (forall funcname cmd,
        (cmd_err cmd = None -> cmd_ExitCode cmd = 0 ->
         childOutcome funcname cmd = IValue (VString (cmd_stdout cmd)))
        /\ (cmd_ExitCode cmd <> 0 ->
            exists err, childOutcome funcname cmd = IError err)
        /\ (forall err, cmd_err cmd = Some err ->
                        childOutcome funcname cmd = IError err)).
Proof.
  cbv zeta. repeat split.
  - intros i. unfold funcExec. now apply funcExecImpl_runs.
  - intros input. unfold funcExecPipe. now apply funcExecImpl_runs.
  - unfold funcExecPipe. now apply funcExecImpl_runs.
  - intros i i2' Hi. unfold funcExecPipe, funcExecImpl.
    destruct i; try contradiction; eauto.
  - intros Herr Hzero. unfold childOutcome. now rewrite Herr, Hzero.
  - intros Hnz. unfold childOutcome.
    destruct (cmd_err cmd); [eauto|].
    destruct (Z.eqb_spec (cmd_ExitCode cmd) 0); [contradiction|eauto].
  - intros err Herr. unfold childOutcome. now rewrite Herr.
Qed.

(** [exec] of a child that copies its input: the output is empty, since
    [exec] gives the child no input; [execpipe] returns the input. *)
Example exec_examples :
  let X := demo (flagsOf false false false false false false false None)
             ∅ [] identity in
  let i2 := [VString "cat"; VArray []] in
  funcExec X (VString "hi") i2 = IValue (VString EmptyString)
  /\ funcExecPipe X (VString "hi") i2 = IValue (VString "hi")
  /\ funcExecPipe X (VNumber 1) i2
     = IError (errorString "exec/2 filter input must be string: 1").
Proof. cbv zeta. repeat split. Qed.

(** ** The receiver that the run loop starts from *)

Section LoopReceiver.

Variable X : Collaborators.

(** When the start-up hands over to the run loop, [noColor] holds the
    value chosen from the flags and the environment, the output flags
    are those of the command line, and the separator flag, the streams
    and the instrumentation are those of the receiver of the run. *)
Lemma run_loop_receiver (rest rest' : list string) (opts : flagopts)
  (c c1 : cli) (arg fname : string) :
  configure X opts rest (configured X opts c) = (c1, inr (arg, fname, rest')) ->
  noColor (armed opts c1) = chooseNoColor X opts
  /\ outputYAML (armed opts c1) = OutputYAML opts
  /\ outputYAMLSeparator (armed opts c1) = outputYAMLSeparator c
  /\ outStream (armed opts c1) = outStream c
  /\ errStream (armed opts c1) = errStream c
  /\ trace (armed opts c1) = trace c.
Proof.
  intros Hc.
  pose proof (configure_untouched X opts rest (configured X opts c)) as Hu.
  rewrite Hc in Hu. cbn [fst] in Hu. unfold untouched in Hu.
  injection Hu as Ho He Hs _ Hn Ht _ _ _ _ Hy _ _.
  unfold armed. destruct (ExitStatus opts);
    cbn [noColor outputYAML outputYAMLSeparator outStream errStream trace
         set_exitCodeError];
    rewrite Ho, He, Hs, Hn, Ht, Hy; repeat split.
Qed.

(** Colour is decided once: every marshal call of the run loop is made
    with the value that the loop started from. *)
Lemma run_loop_keeps_noColor (iter : list item) (code : Code) (c : cli) :
  noColor (fst (process X iter code c)) = noColor c.
Proof.
  unfold process.
  apply settings_noColor, process_loop_settings.
Qed.

(** The YAML stream of a whole run that reaches the run loop. *)
Lemma yaml_run (args rest rest' : list string) (opts : flagopts)
  (c c1 : cli) (arg fname : string) (iter : inputIter) (code : Code) :
  ParseArgs X args = Parsed opts rest ->
  Version opts = false ->
  configure X opts rest (configured X opts c) = (c1, inr (arg, fname, rest')) ->
  prepare X opts arg fname rest' c1 = inr (iter, code) ->
  OutputYAML opts = true ->
  outputYAMLSeparator c = false ->
  outStream (fst (runInternal X args c))
  = outStream c
    +:+ yamlStream false (documents X code (yields X iter) (armed opts c1)).
Proof.
  intros Hp Hv Hc Hpre Hy Hs.
  rewrite (runInternal_processing X args rest rest' opts c c1 arg fname
             iter code Hp Hv Hc Hpre).
  destruct (run_loop_receiver rest rest' opts c c1 arg fname Hc)
    as (_ & Hy1 & Hs1 & Ho1 & _).
  rewrite Hy in Hy1. rewrite Hs in Hs1.
  destruct (process_loop_yaml X code (yields X iter) None (armed opts c1) Hy1)
    as [Ho _].
  fold (process X (yields X iter) code (armed opts c1)) in Ho.
  destruct (process X (yields X iter) code (armed opts c1)) as [c' err].
  cbn [fst outStream set_noColor] in *. now rewrite Ho, Hs1, Ho1.
Qed.

End LoopReceiver.

(** ** The separator in the earlier revision *)

Section EarlierSeparator.

Variable Marshal : Part000.marshaler -> value -> error + string.

(** Under YAML output the earlier [printValue] writes the documents of a
    result sequence of plain values as a YAML stream that continues the
    one of the calls before it: the flag it starts from and the flag it
    leaves are those of the receiver. *)
Lemma printValue_loop_yaml m xs c :
  Part000.outputYAML c = true ->
  Part000.outStream
    (fst (Part000.printValue_loop Marshal m (map Part000.RValue xs) c))
  = Part000.outStream c
    +:+ yamlStream (Part000.outputYAMLSeparator c) (Part000.plainDocuments Marshal m xs)
  /\ Part000.outputYAMLSeparator
       (fst (Part000.printValue_loop Marshal m (map Part000.RValue xs) c))
     = startedAfter (Part000.outputYAMLSeparator c) (Part000.plainDocuments Marshal m xs).
Proof.
  revert c. induction xs as [|x xs IH]; intros c Hy.
  - cbn. now rewrite append_nil_r.
  - cbn [map Part000.printValue_loop Part000.plainDocuments]. unfold Part000.emit.
    destruct (Marshal m x) as [err|d].
    + cbn. now rewrite append_nil_r.
    + match goal with
      | |- context [Part000.printValue_loop Marshal m _ ?c'] =>
          destruct (IH c') as [Ho Hs]
      end.
      { destruct c. cbn in Hy |- *. subst.
        now destruct outputYAMLSeparator0, outputJoin0. }
      rewrite Ho, Hs. cbn [yamlStream startedAfter].
      destruct c. cbn in Hy |- *. subst.
      destruct outputYAMLSeparator0, outputJoin0; cbn;
        rewrite ?append_assoc; split; try reflexivity;
        now destruct (Part000.plainDocuments Marshal m xs).
Qed.

End EarlierSeparator.

(** * Further properties of the run loop *)

Section MoreOfTheLoop.

Variable X : Collaborators.


Lemma process_loop_result code iter err c :
  (err = None \/ exists er, err = Some (emptyError er)) ->
  snd (process_loop X code iter err c) = None
  \/ exists er, snd (process_loop X code iter err c) = Some (emptyError er).
Proof.
  revert err c. induction iter as [|[v|er] iter IH]; intros err c H.
  - exact H.
  - cbn [process_loop].
    destruct (printValues X
                (code v (argvalues (note (EvRun v) (note (EvNext (IValue v)) c))))
                (note (EvRun v) (note (EvNext (IValue v)) c)))
      as [c1 [er|]]; apply IH; eauto.
  - cbn [process_loop]. apply IH. eauto.
Qed.

(** X2.  [process] returns nil or the wrapper of a failure, never a bare
    error; it returns the wrapper as soon as one input record is an
    error; and [printError] writes nothing for what it returns, so the
    top level adds no diagnostic for a failure of the run loop. *)
Theorem process_failure_is_wrapped (iter : list item) (code : Code)
  (c : cli) :
  (snd (process X iter code c) = None
   \/ exists er, snd (process X iter code c) = Some (emptyError er))
  /\ (forall er, In (IError er) iter ->
                 exists er', snd (process X iter code c) = Some (emptyError er'))
  /\ (forall err c', snd (process X iter code c) = Some err ->
                     printError err c' = c').
Proof.
  split; [|split].
  - apply process_loop_result. now left.
  - intros er Hin. apply in_split in Hin. destruct Hin as (pre & post & ->).
    unfold process. rewrite process_loop_app.
    destruct (process_loop X code pre None c) as [c1 e1].
    cbn [process_loop]. apply process_loop_failure. eauto.
  - intros err c' Herr.
    destruct (process_loop_result code iter None c) as [Hn|[er Hs]];
      [now left| |]; unfold process in Herr.
    + congruence.
    + rewrite Hs in Herr. injection Herr as <-. reflexivity.
Qed.

(** *** Output that is not YAML *)

Lemma printValues_loop_plain m iter c :
  outputYAML c = false ->
  outputYAMLSeparator c = false ->
  outStream (fst (printValues_loop X m iter c))
  = outStream c +:+ textOf X (noColor c) m (terminator c) iter
  /\ outputYAMLSeparator (fst (printValues_loop X m iter c)) = false.
Proof.
  revert c. induction iter as [|[[v|err]|v|v] iter IH]; intros c Hy Hs.
  - cbn. now rewrite append_nil_r.
  - rewrite printValues_loop_value. cbn [textOf].
    destruct (snd (marshal X (noColor c) m v)); cbn [fst].
    + generalize (fst (marshal X (noColor c) m v)). intros bytes.
      unfold separate, write_out. rewrite Hs, Hy.
      cbn [outStream outputYAMLSeparator set_outStream
           set_outputYAMLSeparator].
      now rewrite append_nil_r.
    + set (bytes := fst (marshal X (noColor c) m v)).
      pose proof (printed_settings v bytes c) as Hset.
      destruct (IH (printed v bytes c)) as [Ho Hs'].
      { now rewrite (settings_outputYAML _ _ Hset). }
      { now rewrite printed_separator, Hs, Hy. }
      rewrite Ho, Hs', printed_outStream, Hs,
        (settings_noColor _ _ Hset), (settings_terminator _ _ Hset).
      split; [|reflexivity].
      change (EmptyString +:+ bytes +:+ terminator c)
        with (bytes +:+ terminator c).
      now rewrite !append_assoc.
  - cbn. now rewrite append_nil_r.
  - cbn [printValues_loop textOf].
    destruct (IH (funcDebug X v c)) as [Ho Hs'];
      [rewrite <- Hy; frame | rewrite <- Hs; frame |].
    rewrite Ho, Hs'.
    replace (noColor (funcDebug X v c)) with (noColor c) by frame.
    replace (terminator (funcDebug X v c)) with (terminator c) by frame.
    replace (outStream (funcDebug X v c)) with (outStream c) by frame.
    split; reflexivity.
  - cbn [printValues_loop textOf].
    destruct (IH (funcStderr X v c)) as [Ho Hs'];
      [rewrite <- Hy; frame | rewrite <- Hs; frame |].
    rewrite Ho, Hs'.
    replace (noColor (funcStderr X v c)) with (noColor c) by frame.
    replace (terminator (funcStderr X v c)) with (terminator c) by frame.
    replace (outStream (funcStderr X v c)) with (outStream c) by frame.
    split; reflexivity.
Qed.

Lemma text_settings code iter c c' :
  settings c' = settings c -> text X code iter c' = text X code iter c.
Proof.
  intros H. unfold text.
  now rewrite (settings_noColor _ _ H), (settings_argvalues _ _ H),
    (settings_createMarshaler _ _ H), (settings_terminator _ _ H).
Qed.

Lemma process_loop_plain code iter err c :
  outputYAML c = false ->
  outputYAMLSeparator c = false ->
  outStream (fst (process_loop X code iter err c))
  = outStream c +:+ text X code iter c
  /\ outputYAMLSeparator (fst (process_loop X code iter err c)) = false.
Proof.
  revert err c. induction iter as [|[v|er] iter IH]; intros err c Hy Hs.
  - cbn. now rewrite append_nil_r.
  - cbn [process_loop].
    set (c0 := note (EvRun v) (note (EvNext (IValue v)) c)).
    assert (H0 : settings c0 = settings c) by (subst c0; frame).
    assert (Hy0 : outputYAML c0 = false)
      by (now rewrite (settings_outputYAML _ _ H0)).
    assert (Ho0 : outStream c0 = outStream c) by (subst c0; frame).
    assert (Hs0 : outputYAMLSeparator c0 = false)
      by (rewrite <- Hs; subst c0; frame).
    clearbody c0.
    rewrite (settings_argvalues _ _ H0). unfold printValues.
    pose proof (printValues_loop_settings X (createMarshaler c0)
                  (code v (argvalues c)) c0) as Hp.
    destruct (printValues_loop_plain (createMarshaler c0)
                (code v (argvalues c)) c0 Hy0 Hs0) as [Ho Hs1].
    rewrite (settings_noColor _ _ H0), (settings_createMarshaler _ _ H0),
      (settings_terminator _ _ H0), Ho0 in Ho.
    rewrite (settings_createMarshaler _ _ H0) in Hp, Hs1 |- *.
    rewrite H0 in Hp.
    change (text X code (IValue v :: iter) c)
      with (textOf X (noColor c) (createMarshaler c) (terminator c)
              (code v (argvalues c)) +:+ text X code iter c).
    rewrite <- append_assoc.
    destruct (printValues_loop X (createMarshaler c)
                (code v (argvalues c)) c0) as [c1 [er|]];
      cbn [fst] in Hp, Ho, Hs1.
    + destruct (IH (Some (emptyError er)) (printError er c1)) as [Ho' Hs'].
      { now rewrite (settings_outputYAML _ _ (printError_settings er c1)),
          (settings_outputYAML _ _ Hp). }
      { now rewrite printError_separator. }
      rewrite Ho', Hs', printError_outStream, Ho.
      rewrite (text_settings code iter c (printError er c1));
        [split; reflexivity|].
      now rewrite printError_settings, Hp.
    + destruct (IH err c1) as [Ho' Hs'].
      { now rewrite (settings_outputYAML _ _ Hp). }
      { exact Hs1. }
      rewrite Ho', Hs', Ho.
      rewrite (text_settings code iter c c1 Hp). split; reflexivity.
  - cbn [process_loop].
    set (c0 := printError er (note (EvNext (IError er)) c)).
    assert (H0 : settings c0 = settings c) by (subst c0; frame).
    assert (Ho0 : outStream c0 = outStream c) by (subst c0; frame).
    assert (Hs0 : outputYAMLSeparator c0 = false)
      by (rewrite <- Hs; subst c0; frame).
    destruct (IH (Some (emptyError er)) c0) as [Ho Hs'].
    { now rewrite (settings_outputYAML _ _ H0). }
    { exact Hs0. }
    rewrite Ho, Hs', Ho0, (text_settings code iter c c0 H0).
    split; reflexivity.
Qed.

(** X3.  Without YAML output, from a receiver whose separator flag is
    unset, the run loop never writes a separator line and leaves the
    flag unset; the output stream grows by the marshalled values, each
    followed by the terminator, which is nothing under join-output even
    when NUL-output is set too, the NUL byte under NUL-output alone, and
    a line feed otherwise. *)
Theorem plain_output_is_terminated (iter : list item) (code : Code)
  (c : cli) :
  outputYAML c = false ->
  outputYAMLSeparator c = false ->
  outStream (fst (process X iter code c))
  = outStream c +:+ text X code iter c
  /\ outputYAMLSeparator (fst (process X iter code c)) = false
  /\ terminator c
     = (if outputJoin c then EmptyString
        else if outputNul c then NUL else LF).
Proof.
  intros Hy Hs. unfold process.
  destruct (process_loop_plain code iter None c Hy Hs) as [Ho Hs'].
  split; [exact Ho|]. split; [exact Hs'|].
  unfold terminator. rewrite Hy. now destruct (outputJoin c).
Qed.

Lemma printError_diagnostic err c :
  errStream (printError err c) = errStream c +:+ diagnostic err.
Proof.
  unfold printError, diagnostic.
  destruct (IsEmptyError err) as [[|]|]; cbn;
    now rewrite ?append_nil_r.
Qed.

Lemma process_loop_bad_records code ers err c :
  outStream (fst (process_loop X code (map IError ers) err c)) = outStream c
  /\ errStream (fst (process_loop X code (map IError ers) err c))
     = errStream c +:+ appendAll (map diagnostic ers)
  /\ evaluated (trace (fst (process_loop X code (map IError ers) err c)))
     = evaluated (trace c)
  /\ marshalled (trace (fst (process_loop X code (map IError ers) err c)))
     = marshalled (trace c)
  /\ snd (process_loop X code (map IError ers) err c)
     = match last ers with
       | Some er => Some (emptyError er)
       | None => err
       end.
Proof.
  revert err c. induction ers as [|er ers IH]; intros err c.
  - cbn. rewrite append_nil_r. repeat split.
  - cbn [map process_loop].
    destruct (IH (Some (emptyError er))
                (printError er (note (EvNext (IError er)) c)))
      as (Ho & He & Hv & Hm & Hr).
    rewrite Ho, He, Hv, Hm, Hr, printError_outStream, printError_trace,
      printError_diagnostic, last_cons.
    unfold note. cbn [outStream errStream trace set_trace map appendAll
                      fold_right].
    rewrite evaluated_snoc, marshalled_snoc, !app_nil_r, append_assoc.
    repeat split. now destruct (last ers).
Qed.

(** X4.  An input of records that are all errors: nothing is evaluated,
    nothing is marshalled, the output stream is untouched, the error
    stream receives the diagnostic of each record in order, and the
    result wraps a failure unless there was no record at all. *)
Theorem process_bad_records_only (ers : list error) (code : Code) (c : cli) :
  outStream (fst (process X (map IError ers) code c)) = outStream c
  /\ errStream (fst (process X (map IError ers) code c))
     = errStream c +:+ appendAll (map diagnostic ers)
  /\ evaluated (trace (fst (process X (map IError ers) code c)))
     = evaluated (trace c)
  /\ marshalled (trace (fst (process X (map IError ers) code c)))
     = marshalled (trace c)
  /\ (snd (process X (map IError ers) code c) = None <-> ers = []).
Proof.
  unfold process.
  destruct (process_loop_bad_records code ers None c)
    as (Ho & He & Hv & Hm & Hr).
  repeat split; try assumption.
  - intros Hn. rewrite Hr in Hn.
    destruct (last ers) eqn:Hl; [discriminate|]. now apply last_None.
  - intros ->. reflexivity.
Qed.

End MoreOfTheLoop.

Lemma plain_output_is_terminated_witness :
  let opts := flagsOf true false false false false false false None in
  let X := demo opts ∅ [] identity in
  let c := assignOutputFlags opts fresh in
  let iter := [IValue (VNumber 1); IValue (VNumber 2)] in
  outStream (fst (process X iter identity c))
  = outStream c +:+ text X identity iter c
  /\ outputYAMLSeparator (fst (process X iter identity c)) = false
  /\ terminator c
     = (if outputJoin c then EmptyString
        else if outputNul c then NUL else LF).
Proof.
  cbv zeta.
  apply (plain_output_is_terminated
           (demo (flagsOf true false false false false false false None)
              ∅ [] identity)); reflexivity.
Defined.

(** *** The calls to [debug] and [stderr] *)

Section Calls.

Variable X : Collaborators.

Lemma muted_printed v bytes c :
  muted (printed v bytes c) = printed v bytes (muted c).
Proof. unfold printed, muted. frame. Qed.

Lemma muted_failed bytes c :
  muted (write_out bytes (separate c)) = write_out bytes (separate (muted c)).
Proof. unfold muted. frame. Qed.

Lemma muted_funcDebug v c : muted (funcDebug X v c) = muted c.
Proof. unfold muted, funcDebug, write_err. now destruct c. Qed.

Lemma muted_funcStderr v c : muted (funcStderr X v c) = muted c.
Proof. unfold muted, funcStderr, write_err. now destruct c. Qed.

Lemma muted_noColor c c' : muted c = muted c' -> noColor c = noColor c'.
Proof.
  intros H. change (noColor (muted c) = noColor (muted c')). now rewrite H.
Qed.

Lemma printValues_loop_without_calls m iter c c' :
  muted c = muted c' ->
  muted (fst (printValues_loop X m iter c))
  = muted (fst (printValues_loop X m (withoutCalls iter) c'))
  /\ snd (printValues_loop X m iter c)
     = snd (printValues_loop X m (withoutCalls iter) c').
Proof.
  revert c c'. induction iter as [|[[v|err]|v|v] iter IH]; intros c c' H.
  - split; [exact H|reflexivity].
  - change (withoutCalls (Yield (IValue v) :: iter))
      with (Yield (IValue v) :: withoutCalls iter).
    rewrite !printValues_loop_value, <- (muted_noColor c c' H).
    destruct (snd (marshal X (noColor c) m v)); cbn [fst snd].
    + now rewrite !muted_failed, H.
    + apply IH. now rewrite !muted_printed, H.
  - split; [exact H|reflexivity].
  - cbn [printValues_loop]. apply IH. now rewrite muted_funcDebug.
  - cbn [printValues_loop]. apply IH. now rewrite muted_funcStderr.
Qed.

Lemma printValues_loop_quiet m iter c :
  errStream (fst (printValues_loop X m (withoutCalls iter) c)) = errStream c.
Proof.
  revert c. induction iter as [|[[v|err]|v|v] iter IH]; intros c.
  - reflexivity.
  - change (withoutCalls (Yield (IValue v) :: iter))
      with (Yield (IValue v) :: withoutCalls iter).
    rewrite printValues_loop_value.
    destruct (snd (marshal X (noColor c) m v)); cbn [fst].
    + generalize (fst (marshal X (noColor c) m v)). intros bytes. frame.
    + rewrite IH. apply printed_errStream.
  - reflexivity.
  - apply IH.
  - apply IH.
Qed.

(** X5.  The calls that the engine makes to [debug] and [stderr] while
    it produces its results touch the error stream only: [printValues]
    returns the same error and leaves the same receiver, error stream
    apart, as on the result sequence without these calls, and on that
    sequence it writes nothing to the error stream. *)
Theorem calls_touch_the_error_stream_only (iter : list step) (c : cli) :
  muted (fst (printValues X iter c))
  = muted (fst (printValues X (withoutCalls iter) c))
  /\ snd (printValues X iter c) = snd (printValues X (withoutCalls iter) c)
  /\ errStream (fst (printValues X (withoutCalls iter) c)) = errStream c.
Proof.
  unfold printValues.
  destruct (printValues_loop_without_calls (createMarshaler c) iter c c
              eq_refl) as [Hm Hr].
  split; [exact Hm|]. split; [exact Hr|].
  apply printValues_loop_quiet.
Qed.

End Calls.

(** * Further properties of the start-up *)

Section MoreOfTheStartup.

Variable X : Collaborators.

Lemma runInternal_noColor args c :
  noColor (fst (runInternal X args c)) = noColor c.
Proof.
  unfold runInternal.
  destruct (ParseArgs X args) as [msg|err|opts rest]; [reflexivity..|].
  destruct (Version opts); [reflexivity|].
  destruct (configure X opts rest
              (set_noColor (chooseNoColor X opts) (assignOutputFlags opts c)))
    as [c1 [err|[[arg fname] rest']]]; [reflexivity|].
  now destruct (runQuery X opts arg fname rest' c1).
Qed.

(** X6.  The colour setting does not leak out of a run: whatever the
    command line, the environment and the outcome, [noColor] holds after
    [run] the value it held before. *)
Theorem run_restores_noColor (args : list string) (c : cli) :
  noColor (fst (run X args c)) = noColor c.
Proof.
  unfold run.
  pose proof (runInternal_noColor args c) as H.
  destruct (runInternal X args c) as [c1 [err|]]; cbn [fst] in H.
  - replace (noColor c) with (noColor (printError err c1)).
    + now destruct (ExitCode err).
    + rewrite <- H. apply settings_noColor, printError_settings.
  - exact H.
Qed.

(** X7.  A failure of the checks and bindings of the start-up (colour
    scheme, indentation count, YAML with tabs, a binding that cannot be
    read or parsed, an unreadable query file) ends the run before any
    input is pulled and with both streams as they were; [run] then
    prints the diagnostic of that error and returns its exit code, or
    the default failure code when it has none.  Exit-status mode
    changes nothing to this. *)
Theorem startup_failure_ends_the_run (args rest : list string)
  (opts : flagopts) (c c1 : cli) (err : error) :
  ParseArgs X args = Parsed opts rest ->
  Version opts = false ->
  configure X opts rest (configured X opts c) = (c1, inl err) ->
  runInternal X args c = (set_noColor (noColor c) c1, Some err)
  /\ outStream c1 = outStream c
  /\ errStream c1 = errStream c
  /\ trace c1 = trace c
  /\ errStream (fst (run X args c)) = errStream c +:+ diagnostic err
  /\ outStream (fst (run X args c)) = outStream c
  /\ snd (run X args c)
     = match ExitCode err with
       | Some code => code
       | None => exitCodeDefaultErr
       end.
Proof.
  intros Hp Hv Hc.
  pose proof (configure_untouched X opts rest (configured X opts c)) as Hu.
  rewrite Hc in Hu. cbn [fst] in Hu. unfold untouched in Hu.
  injection Hu as Ho He _ _ _ Ht _ _ _ _ _ _ _.
  assert (Hrun : runInternal X args c
                 = (set_noColor (noColor c) c1, Some err)).
  { rewrite (runInternal_parsed X args rest opts c Hp Hv), Hc. reflexivity. }
  split; [exact Hrun|]. split; [exact Ho|]. split; [exact He|].
  split; [exact Ht|].
  unfold run. rewrite Hrun.
  destruct (ExitCode err); cbn [fst snd];
    rewrite printError_diagnostic, printError_outStream;
    cbn [errStream outStream set_noColor]; now rewrite He, Ho.
Qed.

End MoreOfTheStartup.

Lemma startup_failure_ends_the_run_witness :
  let opts := bindingFlags [] [] [] [("x", "missing")] true in
  let X := demo opts ∅ [IValue VNull] identity in
  let c1 := fst (configure X opts [] (configured X opts fresh)) in
  let err := errorString "open missing" in
  runInternal X [] fresh = (set_noColor (noColor fresh) c1, Some err)
  /\ outStream c1 = outStream fresh
  /\ errStream c1 = errStream fresh
  /\ trace c1 = trace fresh
  /\ errStream (fst (run X [] fresh)) = errStream fresh +:+ diagnostic err
  /\ outStream (fst (run X [] fresh)) = outStream fresh
  /\ snd (run X [] fresh)
     = match ExitCode err with
       | Some code => code
       | None => exitCodeDefaultErr
       end.
Proof.
  cbv zeta.
  apply (startup_failure_ends_the_run
           (demo (bindingFlags [] [] [] [("x", "missing")] true)
              ∅ [IValue VNull] identity)
           [] [] (bindingFlags [] [] [] [("x", "missing")] true) fresh);
    reflexivity.
Defined.

(** *** The bindings of the command line *)

Section BindingsOfTheRun.

Variable X : Collaborators.

Lemma bindArgs_bound kvs c :
  argnames (bindArgs kvs c)
  = argnames c ++ map (fun kv => "$" +:+ fst kv) kvs
  /\ map Some (argvalues (bindArgs kvs c))
     = map Some (argvalues c) ++ map (fun kv => Some (VString (snd kv))) kvs.
Proof.
  revert c. induction kvs as [|[k v] kvs IH]; intros c.
  - cbn. now rewrite !app_nil_r.
  - cbn [bindArgs]. destruct (IH (bind k (VString v) c)) as [Hn Hv].
    rewrite Hn, Hv. unfold bind. cbn [argnames argvalues set_argnames
      set_argvalues map fst snd].
    now rewrite map_app, <- !app_assoc.
Qed.

Lemma bindArgsJSON_bound kvs c c' :
  bindArgsJSON X kvs c = (c', None) ->
  argnames c' = argnames c ++ map (fun kv => "$" +:+ fst kv) kvs
  /\ map Some (argvalues c')
     = map Some (argvalues c)
       ++ map (fun kv =>
                 match first_Next (decodeString X (snd kv) ("$" +:+ fst kv))
                 with
                 | IValue val => Some val
                 | IError _ => None
                 end) kvs.
Proof.
  revert c. induction kvs as [|[k v] kvs IH]; intros c H.
  - injection H as <-. cbn. now rewrite !app_nil_r.
  - cbn [bindArgsJSON] in H. cbn [map fst snd].
    destruct (first_Next (decodeString X v ("$" +:+ k))) as [val|err];
      [|discriminate].
    destruct (IH _ H) as [Hn Hv]. rewrite Hn, Hv. unfold bind.
    cbn [argnames argvalues set_argnames set_argvalues].
    now rewrite map_app, <- !app_assoc.
Qed.

Lemma bindSlurpFile_bound kvs c c' :
  bindSlurpFile X kvs c = (c', None) ->
  argnames c' = argnames c ++ map (fun kv => "$" +:+ fst kv) kvs
  /\ map Some (argvalues c')
     = map Some (argvalues c)
       ++ map (fun kv =>
                 match slurpFile X (snd kv) with
                 | inr val => Some val
                 | inl _ => None
                 end) kvs.
Proof.
  revert c. induction kvs as [|[k v] kvs IH]; intros c H.
  - injection H as <-. cbn. now rewrite !app_nil_r.
  - cbn [bindSlurpFile] in H. cbn [map fst snd].
    destruct (slurpFile X v) as [err|val]; [discriminate|].
    destruct (IH _ H) as [Hn Hv]. rewrite Hn, Hv. unfold bind.
    cbn [argnames argvalues set_argnames set_argvalues].
    now rewrite map_app, <- !app_assoc.
Qed.

Lemma bindRawFile_bound kvs c c' :
  bindRawFile X kvs c = (c', None) ->
  argnames c' = argnames c ++ map (fun kv => "$" +:+ fst kv) kvs
  /\ map Some (argvalues c')
     = map Some (argvalues c)
       ++ map (fun kv =>
                 match ReadFile X (snd kv) with
                 | inr val => Some (VString val)
                 | inl _ => None
                 end) kvs.
Proof.
  revert c. induction kvs as [|[k v] kvs IH]; intros c H.
  - injection H as <-. cbn. now rewrite !app_nil_r.
  - cbn [bindRawFile] in H. cbn [map fst snd].
    destruct (ReadFile X v) as [err|val]; [discriminate|].
    destruct (IH _ H) as [Hn Hv]. rewrite Hn, Hv. unfold bind.
    cbn [argnames argvalues set_argnames set_argvalues].
    now rewrite map_app, <- !app_assoc.
Qed.

(** X8.  When the checks and bindings of the start-up succeed, the
    variable names and the variable values of the receiver have grown
    by the same bindings in the same order: every name of [--arg],
    [--argjson], [--slurpfile] and [--rawfile], with a dollar sign in
    front, and at the same position the string, the decoded JSON value,
    the slurped file or the file contents as a string.  None of the
    values is missing. *)
Theorem bindings_keep_names_and_values_aligned (opts : flagopts)
  (args : list string) (c c1 : cli) (q : string * string * list string) :
  configure X opts args c = (c1, inr q) ->
  argnames c1 = argnames c ++ boundNames opts
  /\ map Some (argvalues c1) = map Some (argvalues c) ++ boundValues X opts
  /\ length (argnames c1) = (length (argnames c) + length (boundNames opts))%nat
  /\ length (argvalues c1) = (length (argvalues c) + length (boundNames opts))%nat.
Proof.
  intros H.
  assert (Hb : argnames c1 = argnames c ++ boundNames opts
               /\ map Some (argvalues c1)
                  = map Some (argvalues c) ++ boundValues X opts).
  { unfold configure, configureRest in H.
    destruct (loadColors X c); [discriminate|].
    destruct (checkIndent c); [discriminate|].
    destruct (OutputYAML opts && OutputTab opts); [discriminate|].
    destruct (bindArgs_bound (Args opts) (assignInputFlags opts c)) as [Hn0 Hv0].
    destruct (bindArgsJSON X (ArgsJSON opts)
                (bindArgs (Args opts) (assignInputFlags opts c)))
      as [c2 [e|]] eqn:H1; [discriminate|].
    destruct (bindSlurpFile X (SlurpFile opts) c2) as [c3 [e|]] eqn:H2;
      [discriminate|].
    destruct (bindRawFile X (RawFile opts) c3) as [c4 [e|]] eqn:H3;
      [discriminate|].
    destruct (querySource X opts args); [discriminate|].
    injection H as <- _.
    destruct (bindArgsJSON_bound _ _ _ H1) as [Hn1 Hv1].
    destruct (bindSlurpFile_bound _ _ _ H2) as [Hn2 Hv2].
    destruct (bindRawFile_bound _ _ _ H3) as [Hn3 Hv3].
    rewrite Hn3, Hn2, Hn1, Hn0, Hv3, Hv2, Hv1, Hv0.
    unfold boundNames, boundValues.
    change (argnames (assignInputFlags opts c)) with (argnames c).
    change (argvalues (assignInputFlags opts c)) with (argvalues c).
    now rewrite !map_app, <- !app_assoc. }
  destruct Hb as [Hn Hv]. split; [exact Hn|]. split; [exact Hv|].
  split.
  - now rewrite Hn, length_app.
  - apply (f_equal (@length (option value))) in Hv.
    rewrite length_app, !length_map in Hv. rewrite Hv.
    unfold boundNames, boundValues.
    rewrite !length_app, !length_map, !length_app. lia.
Qed.

End BindingsOfTheRun.

Lemma bindings_keep_names_and_values_aligned_witness :
  let opts := bindingFlags [("a", "1"); ("b", "2")] [] [] [] false in
  let X := demo opts ∅ [] identity in
  let c1 := fst (configure X opts ["."] fresh) in
  argnames c1 = argnames fresh ++ boundNames opts
  /\ map Some (argvalues c1) = map Some (argvalues fresh) ++ boundValues X opts
  /\ length (argnames c1)
     = (length (argnames fresh) + length (boundNames opts))%nat
  /\ length (argvalues c1)
     = (length (argvalues fresh) + length (boundNames opts))%nat.
Proof.
  cbv zeta.
  apply (bindings_keep_names_and_values_aligned
           (demo (bindingFlags [("a", "1"); ("b", "2")] [] [] [] false)
              ∅ [] identity)
           (bindingFlags [("a", "1"); ("b", "2")] [] [] [] false)
           ["."] fresh _ (".", "<arg>", [])).
  reflexivity.
Defined.

(** *** Success under exit-status mode *)

Section ExitStatusZero.

Variable X : Collaborators.

Lemma statusOf_ok ms :
  statusOf ms = exitCodeOK -> exists vs v, ms = vs ++ [v] /\ falsy v = false.
Proof.
  unfold statusOf. destruct (last ms) as [v|] eqn:Hl; [|discriminate].
  apply last_Some in Hl. destruct Hl as [vs ->].
  destruct (falsy v) eqn:Hf; [discriminate|]. eauto.
Qed.

Lemma evaluate_tracking opts arg fname rest c :
  tracking c -> tracking (fst (evaluate X opts arg fname rest c)).
Proof.
  intros H. unfold evaluate.
  destruct (prepare X opts arg fname rest c) as [err|[iter code]];
    [exact H|].
  now apply process_loop_tracking.
Qed.

(** X9.  In exit-status mode, a run that gets through the checks and
    bindings of the start-up exits with the code of success only if some
    value was printed and the last value printed is neither null nor
    false: a run that prints no value, or whose last printed value is
    null or false, does not exit with the code of success, whatever
    else happens in it. *)
Theorem exit_status_success_needs_a_true_value (args rest rest' : list string)
  (opts : flagopts) (c c1 : cli) (arg fname : string) :
  ParseArgs X args = Parsed opts rest ->
  Version opts = false ->
  ExitStatus opts = true ->
  configure X opts rest (configured X opts c) = (c1, inr (arg, fname, rest')) ->
  marshalled (trace c) = [] ->
  snd (run X args c) = exitCodeOK ->
  exists vs v,
    marshalled (trace (fst (run X args c))) = vs ++ [v] /\ falsy v = false.
Proof.
  intros Hp Hv He Hc Hfresh H0.
  assert (Htr : tracking (armed opts c1)).
  { unfold tracking, armed. rewrite He.
    cbn [exitCodeError trace set_exitCodeError].
    pose proof (configure_untouched X opts rest (configured X opts c)) as Hu.
    rewrite Hc in Hu. cbn [fst] in Hu.
    rewrite (untouched_trace _ _ Hu).
    change (trace (configured X opts c)) with (trace c).
    now rewrite Hfresh. }
  pose proof (evaluate_tracking opts arg fname rest' _ Htr) as Hend.
  unfold run in *.
  rewrite (runInternal_parsed X args rest opts c Hp Hv), Hc in *.
  unfold runQuery in *. rewrite He in *. unfold armed in Hend.
  rewrite He in Hend.
  destruct (evaluate X opts arg fname rest'
              (set_exitCodeError
                 (Some (exitCodeError_lit exitCodeNoValueErr)) c1))
    as [c' err].
  cbn [fst] in Hend. unfold tracking in Hend.
  unfold exitStatusDeferred in *. rewrite Hend in *.
  destruct err as [er|].
  - destruct (ExitCode er) as [code|] eqn:Hcode.
    + destruct (code =? 0) eqn:Hz.
      * cbn [fst snd ExitCode exitCodeError_lit] in *.
        now apply statusOf_ok.
      * rewrite Hcode in *. cbn [snd] in H0. subst code. discriminate.
    + cbn [fst snd ExitCode exitCodeError_lit] in *. now apply statusOf_ok.
  - cbn [fst snd ExitCode exitCodeError_lit] in *. now apply statusOf_ok.
Qed.

End ExitStatusZero.

Lemma exit_status_success_needs_a_true_value_witness :
  let opts := flagsOf false false false false false true false None in
  let X := demo opts ∅ [IValue VNull; IValue (VNumber 7)] identity in
  exists vs v,
    marshalled (trace (fst (run X [] fresh))) = vs ++ [v] /\ falsy v = false.
Proof.
  cbv zeta.
  apply (exit_status_success_needs_a_true_value
           (demo (flagsOf false false false false false true false None)
              ∅ [IValue VNull; IValue (VNumber 7)] identity)
           [] [] []
           (flagsOf false false false false false true false None)
           fresh
           (fst (configure
                   (demo (flagsOf false false false false false true false None)
                      ∅ [IValue VNull; IValue (VNumber 7)] identity)
                   (flagsOf false false false false false true false None) []
                   (configured
                      (demo (flagsOf false false false false false true false
                               None)
                         ∅ [IValue VNull; IValue (VNumber 7)] identity)
                      (flagsOf false false false false false true false None)
                      fresh)))
           "." EmptyString); reflexivity.
Defined.

(** * Further properties of the unsafe filters *)

Lemma collectStrings_fails (args : list value) (cmds : list string) :
  forallb isString args = false -> collectStrings args cmds = inl tt.
Proof.
  revert cmds. induction args as [|v args IH]; intros cmds H;
    [discriminate|].
  destruct v; try reflexivity. cbn [collectStrings]. now apply IH.
Qed.

Lemma strings_of_values (args : list value) :
  forallb isString args = true -> exists strs, args = map VString strs.
Proof.
  induction args as [|v args IH]; intros H.
  - now exists [].
  - cbn [forallb] in H. apply andb_true_iff in H. destruct H as [Hv H].
    destruct (IH H) as [strs ->].
    destruct v; try discriminate. now exists (s :: strs).
Qed.

Lemma funcExecImpl_arguments (X : Collaborators) (funcname : string)
  (i : value) (i2 : list value) :
  match i with VString _ | VNull => True | _ => False end ->
  (isString (index i2 0) = false ->
   funcExecImpl X funcname i i2
   = IError (errorString
       (funcname +:+ "/2 the first argument must be string: "
        +:+ fmt_v X (index i2 0))))
  /\ (isString (index i2 0) = true ->
      isStringArray (index i2 1) = false ->
      funcExecImpl X funcname i i2
      = IError (errorString
          (funcname +:+ "/2 the second argument must be array of string: "
           +:+ fmt_v X (index i2 1)))).
Proof.
  intros Hi. unfold funcExecImpl.
  destruct i; try contradiction.
  - split.
    + intros H1. destruct (index i2 0); try discriminate; reflexivity.
    + intros H1 H2. destruct (index i2 0); try discriminate.
      destruct (index i2 1) as [| | | |args|]; try reflexivity.
      cbn [isStringArray] in H2. now rewrite (collectStrings_fails args [] H2).
  - split.
    + intros H1. destruct (index i2 0); try discriminate; reflexivity.
    + intros H1 H2. destruct (index i2 0); try discriminate.
      destruct (index i2 1) as [| | | |args|]; try reflexivity.
      cbn [isStringArray] in H2. now rewrite (collectStrings_fails args [] H2).
Qed.

(** X10.  Both unsafe filters check their two arguments before anything
    is run, the first before the second: an executable path that is not
    a string, and then a second argument that is not an array or holds
    an element that is not a string, give an error that names the filter
    and prints the offending argument as a whole.  When both checks
    pass, the arguments are a path and a list of strings, and the result
    is the outcome of that command. *)
Theorem exec_checks_its_arguments (X : Collaborators) (i : value)
  (input : string) (a b : value) :
  (isString a = false ->
   funcExec X i [a; b]
   = IError (errorString
       ("exec/2 the first argument must be string: " +:+ fmt_v X a))
   /\ funcExecPipe X (VString input) [a; b]
      = IError (errorString
          ("execpipe/2 the first argument must be string: " +:+ fmt_v X a)))
  /\ (isString a = true ->
      isStringArray b = false ->
      funcExec X i [a; b]
      = IError (errorString
          ("exec/2 the second argument must be array of string: "
           +:+ fmt_v X b))
      /\ funcExecPipe X (VString input) [a; b]
         = IError (errorString
             ("execpipe/2 the second argument must be array of string: "
              +:+ fmt_v X b)))
  /\ (isString a = true ->
      isStringArray b = true ->
      exists path args,
        a = VString path
        /\ b = VArray (map VString args)
        /\ funcExec X i [a; b]
           = childOutcome "exec" (cmd_Output X path args EmptyString)
        /\ funcExecPipe X (VString input) [a; b]
           = childOutcome "execpipe" (cmd_Output X path args input)).
Proof.
  unfold funcExec, funcExecPipe.
  destruct (funcExecImpl_arguments X "exec" VNull [a; b] I) as [E1 E2].
  destruct (funcExecImpl_arguments X "execpipe" (VString input) [a; b] I)
    as [P1 P2].
  change (index [a; b] 0) with a in *. change (index [a; b] 1) with b in *.
  split; [|split].
  - intros H. split; [now apply E1|now apply P1].
  - intros H1 H2. split; [now apply E2|now apply P2].
  - intros H1 H2.
    destruct a as [| | |path| |]; try discriminate.
    destruct b as [| | | |vs|]; try discriminate.
    cbn [isStringArray] in H2.
    destruct (strings_of_values vs H2) as [args ->].
    exists path, args. split; [reflexivity|]. split; [reflexivity|].
    split; now apply funcExecImpl_runs.
Qed.

(** * Further properties of the earlier revision *)

Module Part000RunFacts.

Import Part000 Part000Run.

Section Printing.

Variable Marshal : marshaler -> value -> error + string.
Variable jsonParseError : string -> string -> error -> error.

Lemma emit_settings m w x c :
  earlierSettings (fst (emit Marshal m w x c)) = earlierSettings c.
Proof.
  unfold emit. destruct (Marshal m x) as [err|xs]; [reflexivity|].
  cbn [fst].
  destruct c; destruct w; cbn;
    repeat match goal with
      | |- context [if ?b then _ else _] => is_var b; destruct b; cbn
      | |- context [negb ?b] => is_var b; destruct b; cbn
      end;
    reflexivity.
Qed.

Lemma restored_settings c :
  earlierSettings (set_outputCompact (outputCompact c)
                     (set_outputCompact true c))
  = earlierSettings c.
Proof. now destruct c. Qed.

(** The earlier [printValue] leaves every flag and every binding of the
    receiver as it was, the compact flag included. *)
Lemma printValue_loop_settings m v c :
  earlierSettings (fst (printValue_loop Marshal m v c)) = earlierSettings c.
Proof.
  revert c. induction v as [|[e|v0 v1|x] v IH]; intros c.
  - reflexivity.
  - reflexivity.
  - cbn [printValue_loop].
    destruct v0 as [| | |s| |].
    4: { destruct (String.eqb s "HALT:"); [reflexivity|].
         match goal with
         | |- context [emit Marshal ?m' ?w ?x ?c'] =>
             pose proof (emit_settings m' w x c') as He;
             destruct (emit Marshal m' w x c') as [c1 [e|]]
         end; cbn [fst] in He; rewrite restored_settings in He;
           [exact He|]. now rewrite IH, He. }
    all: match goal with
         | |- context [emit Marshal ?m' ?w ?x ?c'] =>
             pose proof (emit_settings m' w x c') as He;
             destruct (emit Marshal m' w x c') as [c1 [e|]]
         end; cbn [fst] in He; [exact He|now rewrite IH, He].
  - cbn [printValue_loop].
    pose proof (emit_settings m toOut x c) as He.
    destruct (emit Marshal m toOut x c) as [c1 [e|]]; cbn [fst] in He;
      [exact He|now rewrite IH, He].
Qed.


Lemma printValue_loop_halt m pre x post c :
  printValue_loop Marshal m (pre ++ RPair (VString "HALT:") x :: post) c
  = printValue_loop Marshal m pre c.
Proof.
  revert c. induction pre as [|[e|v0 v1|y] pre IH]; intros c.
  - reflexivity.
  - reflexivity.
  - cbn [app printValue_loop].
    destruct v0 as [| | |s| |].
    4: { destruct (String.eqb s "HALT:"); [reflexivity|].
         match goal with
         | |- context [emit Marshal ?m' ?w ?x ?c'] =>
             destruct (emit Marshal m' w x c') as [c1 [e|]]
         end; [reflexivity|apply IH]. }
    all: match goal with
         | |- context [emit Marshal ?m' ?w ?x ?c'] =>
             destruct (emit Marshal m' w x c') as [c1 [e|]]
         end; [reflexivity|apply IH].
  - cbn [app printValue_loop].
    destruct (emit Marshal m toOut y c) as [c1 [e|]];
      [reflexivity|apply IH].
Qed.

(** X11.  A result that is the pair tagged [HALT:] ends the printing of
    a result sequence without an error: the earlier [printValue] behaves
    on the sequence as on the results before that pair, whatever comes
    after it, and it leaves every flag and every binding of the receiver
    as it was. *)
Theorem halt_ends_the_results (pre post : list result) (x : value)
  (c : cli) :
  printValue Marshal (pre ++ RPair (VString "HALT:") x :: post) c
  = printValue Marshal pre c
  /\ printValue Marshal (RPair (VString "HALT:") x :: post) c = (c, None)
  /\ earlierSettings
       (fst (printValue Marshal (pre ++ RPair (VString "HALT:") x :: post) c))
     = earlierSettings c.
Proof.
  unfold printValue. split; [apply printValue_loop_halt|].
  split; [reflexivity|apply printValue_loop_settings].
Qed.

(** *** Documents that are not slurped *)





End Printing.

(** *** Raw lines, files and the top level *)

Section Sources.

Variable X : Externals.
Variable NoColor : bool.

Lemma processRaw_loop_lines code lines errs c :
  evaluated (trace (fst (processRaw_loop X NoColor code lines errs c)))
  = evaluated (trace c) ++ map VString lines
  /\ exists more,
       snd (processRaw_loop X NoColor code lines errs c) = errs ++ more
       /\ (length more <= length lines)%nat.
Proof.
  revert errs c. induction lines as [|text lines IH]; intros errs c.
  - cbn. rewrite !app_nil_r. split; [reflexivity|].
    exists []. now rewrite app_nil_r.
  - cbn [processRaw_loop map]. unfold printValue.
    pose proof (Part000Facts.printValue_loop_evaluated (Marshal X NoColor)
                  (createMarshaler (note (EvRun (VString text)) c))
                  (code (VString text)
                     (argvalues (note (EvRun (VString text)) c)))
                  (note (EvRun (VString text)) c)) as He.
    unfold note at 4 in He. cbn [trace set_trace] in He.
    rewrite Part000Facts.earlier_evaluated_snoc in He.
    destruct (printValue_loop (Marshal X NoColor)
                (createMarshaler (note (EvRun (VString text)) c))
                (code (VString text)
                   (argvalues (note (EvRun (VString text)) c)))
                (note (EvRun (VString text)) c))
      as [c1 [e|]]; cbn [fst] in He.
    + destruct (IH (errs ++ [e]) c1) as (Hev & more & Hs & Hl).
      split.
      * rewrite Hev, He, <- app_assoc. reflexivity.
      * exists (e :: more). rewrite Hs, <- app_assoc. cbn [app length].
        split; [reflexivity|lia].
    + destruct (IH errs c1) as (Hev & more & Hs & Hl).
      split.
      * rewrite Hev, He, <- app_assoc. reflexivity.
      * exists more. cbn [length]. split; [exact Hs|lia].
Qed.

Lemma processRaw_loop_outcomes code lines errs c :
  processRaw_loop X NoColor code lines errs c
  = (snd (lineOutcomes (Marshal X NoColor) code lines c),
     errs ++ failuresIn (fst (lineOutcomes (Marshal X NoColor) code lines c))).
Proof.
  revert errs c. induction lines as [|text lines IH]; intros errs c.
  - cbn. now rewrite app_nil_r.
  - cbn [processRaw_loop lineOutcomes fst snd].
    destruct (printValue (Marshal X NoColor)
                (code (VString text)
                   (argvalues (note (EvRun (VString text)) c)))
                (note (EvRun (VString text)) c)) as [c1 [e|]];
      rewrite IH; cbn [fst snd failuresIn flat_map].
    + now rewrite <- app_assoc.
    + reflexivity.
Qed.

Lemma lineOutcomes_length Marshal' code lines c :
  length (fst (lineOutcomes Marshal' code lines c)) = length lines.
Proof.
  revert c. induction lines as [|text lines IH]; intros c; [reflexivity|].
  cbn [lineOutcomes fst length]. now rewrite IH.
Qed.

(** X13.  Without slurp, the earlier [processRaw] hands every line of
    the source to the engine, in order, whether or not the results of an
    earlier line failed, each line from the receiver that the line
    before it leaves.  When the scanner reports an error, that error is
    the result; otherwise the result is nil when no line failed, and
    the list of the failures of the lines, every one of them and in the
    order of the lines, when some did. *)
Theorem raw_lines_are_all_evaluated (fname : string) (input : source)
  (code : Code) (c : cli) :
  inputSlurp c = false ->
  evaluated (trace (fst (processRaw X NoColor fname input code c)))
  = evaluated (trace c) ++ map VString (fst (Scan X input))
  /\ fst (processRaw X NoColor fname input code c)
     = snd (lineOutcomes (Marshal X NoColor) code (fst (Scan X input)) c)
  /\ length (fst (lineOutcomes (Marshal X NoColor) code
                    (fst (Scan X input)) c))
     = length (fst (Scan X input))
  /\ (forall err,
        snd (Scan X input) = Some err ->
        snd (processRaw X NoColor fname input code c) = Some (single err))
  /\ (snd (Scan X input) = None ->
      failuresIn (fst (lineOutcomes (Marshal X NoColor) code
                         (fst (Scan X input)) c)) = [] ->
      snd (processRaw X NoColor fname input code c) = None)
  /\ (forall err errs,
        snd (Scan X input) = None ->
        failuresIn (fst (lineOutcomes (Marshal X NoColor) code
                           (fst (Scan X input)) c)) = err :: errs ->
        snd (processRaw X NoColor fname input code c)
        = Some (errors (err :: errs))).
Proof.
  intros Hs. unfold processRaw. rewrite Hs.
  destruct (processRaw_loop_lines code (fst (Scan X input)) [] c)
    as (Hev & _).
  rewrite processRaw_loop_outcomes in *. cbn [fst snd app] in *.
  split; [|split; [|split; [|split; [|split]]]].
  - destruct (snd (Scan X input));
      [|destruct (failuresIn _)]; exact Hev.
  - now destruct (snd (Scan X input)); [|destruct (failuresIn _)].
  - apply lineOutcomes_length.
  - intros err ->. reflexivity.
  - intros -> ->. reflexivity.
  - intros err errs -> ->. reflexivity.
Qed.

Lemma processFiles_app pre post code c :
  processFiles X NoColor (pre ++ post) code c
  = match processFiles X NoColor pre code c with
    | (c', Some e) => (c', Some e)
    | (c', None) => processFiles X NoColor post code c'
    end.
Proof.
  revert c. induction pre as [|f pre IH]; intros c.
  - reflexivity.
  - cbn [app processFiles].
    destruct (processFile X NoColor f code c) as [c1 [e|]];
      [reflexivity|apply IH].
Qed.

(** X14.  The files of the earlier command line are processed in their
    order, each from the receiver that the one before it leaves, and the
    first file that fails ends the run: the files after it are not
    opened.  A file that cannot be opened is such a failure, with the
    error of [os.Open] as it is and the receiver unchanged. *)
Theorem first_failing_file_ends_the_run (pre post : list string)
  (f : string) (code : Code) (c : cli) :
  processFiles X NoColor (pre ++ post) code c
  = match processFiles X NoColor pre code c with
    | (c', Some e) => (c', Some e)
    | (c', None) => processFiles X NoColor post code c'
    end
  /\ (forall c' e,
        processFile X NoColor f code c = (c', Some e) ->
        processFiles X NoColor (f :: post) code c = (c', Some e))
  /\ (forall e,
        os_Open X f = Some e ->
        processFiles X NoColor (f :: post) code c = (c, Some (single e))).
Proof.
  split; [apply processFiles_app|]. split.
  - intros c' e H. cbn [processFiles]. now rewrite H.
  - intros e H. cbn [processFiles]. unfold processFile. now rewrite H.
Qed.

End Sources.

Section TopLevel.

Variable X : Externals.

Lemma runInternal_NoColor args c NoColor :
  snd (fst (runInternal X args c NoColor)) = NoColor.
Proof.
  unfold runInternal.
  destruct (ParseArgs X args) as [msg|err|opts rest]; [reflexivity..|].
  destruct (Version opts); [reflexivity|].
  now destruct (runParsed X _ opts rest _).
Qed.

Lemma report_all errs c :
  outStream (fold_left (report) errs c) = outStream c
  /\ errStream (fold_left (report) errs c)
     = errStream c +:+ appendAll (map earlierLine errs).
Proof.
  revert c. induction errs as [|e errs IH]; intros c.
  - cbn. now rewrite append_nil_r.
  - cbn [fold_left map appendAll fold_right].
    destruct (IH (report c e)) as [Ho He]. rewrite Ho, He.
    unfold report, write, earlierLine.
    cbn [outStream errStream set_errStream].
    now rewrite append_assoc.
Qed.

(** X15.  The earlier [run] prints one line on the error stream for
    every failure that [runInternal] returns, in their order (one line
    for a single error, one line for each entry of a list of errors),
    writes nothing to the output stream itself, exits with 1 when
    [runInternal] returns an error and with 0 when it returns nil, and
    leaves the package variable [color.NoColor] as it found it. *)
Theorem run_reports_every_failure (args : list string) (c : cli)
  (NoColor : bool) :
  snd (fst (run X args c NoColor)) = NoColor
  /\ outStream (fst (fst (run X args c NoColor)))
     = outStream (fst (fst (runInternal X args c NoColor)))
  /\ errStream (fst (fst (run X args c NoColor)))
     = errStream (fst (fst (runInternal X args c NoColor)))
       +:+ appendAll
             (map earlierLine
                (failuresOf (snd (runInternal X args c NoColor))))
  /\ snd (run X args c NoColor)
     = match snd (runInternal X args c NoColor) with
       | None => exitCodeOK
       | Some _ => exitCodeErr
       end.
Proof.
  pose proof (runInternal_NoColor args c NoColor) as Hn.
  unfold run.
  destruct (runInternal X args c NoColor) as [[c1 x] [[err|errs]|]];
    cbn [fst snd failuresOf] in *.
  - repeat split; try assumption.
    unfold report, write, earlierLine.
    cbn [errStream set_errStream map appendAll fold_right].
    now rewrite append_nil_r.
  - destruct (report_all errs c1) as [Ho He]. repeat split; assumption.
  - repeat split; try assumption. cbn. now rewrite append_nil_r.
Qed.

End TopLevel.

(** *** The names of the variables *)

Section Names.

Variable X : Externals.

Lemma bindArgs_bindWith kvs c :
  bindArgs X kvs c
  = bindWith (variableNameError X) (fun _ v => inr (VString v)) kvs c.
Proof.
  revert c. induction kvs as [|[k v] kvs IH]; intros c; [reflexivity|].
  cbn [bindArgs bindWith].
  destruct (negb (argNameRe_MatchString k)); [reflexivity|apply IH].
Qed.

Lemma bindArgsJSON_bindWith kvs c :
  bindArgsJSON X kvs c
  = bindWith (variableNameError X)
      (fun k v =>
         match json_Unmarshal X v with
         | inl err => inl (jsonParseError X ("$" +:+ k) v err)
         | inr val => inr val
         end) kvs c.
Proof.
  revert c. induction kvs as [|[k v] kvs IH]; intros c; [reflexivity|].
  cbn [bindArgsJSON bindWith].
  destruct (negb (argNameRe_MatchString k)); [reflexivity|].
  destruct (json_Unmarshal X v); [reflexivity|apply IH].
Qed.

Lemma bindSlurpFile_bindWith kvs c :
  bindSlurpFile X kvs c
  = bindWith (variableNameError X)
      (fun _ v =>
         match slurpFile X v with
         | inl err => inl err
         | inr vals => inr (VArray vals)
         end) kvs c.
Proof.
  revert c. induction kvs as [|[k v] kvs IH]; intros c; [reflexivity|].
  cbn [bindSlurpFile bindWith].
  destruct (negb (argNameRe_MatchString k)); [reflexivity|].
  destruct (slurpFile X v); [reflexivity|apply IH].
Qed.

Lemma bindRawFile_bindWith kvs c :
  bindRawFile X kvs c
  = bindWith (variableNameError X)
      (fun _ v =>
         match ReadFile X v with
         | inl err => inl err
         | inr val => inr (VString val)
         end) kvs c.
Proof.
  revert c. induction kvs as [|[k v] kvs IH]; intros c; [reflexivity|].
  cbn [bindRawFile bindWith].
  destruct (negb (argNameRe_MatchString k)); [reflexivity|].
  destruct (ReadFile X v); [reflexivity|apply IH].
Qed.

Lemma bindWith_untouched produce kvs c :
  earlierUntouched (fst (bindWith (variableNameError X) produce kvs c))
  = earlierUntouched c.
Proof.
  revert c. induction kvs as [|[k v] kvs IH]; intros c; [reflexivity|].
  cbn [bindWith].
  destruct (negb (argNameRe_MatchString k)); [reflexivity|].
  destruct (produce k v); [reflexivity|]. now rewrite IH.
Qed.

Lemma bindWith_bound produce kvs c c1 :
  bindWith (variableNameError X) produce kvs c = (c1, None) ->
  forallb validName kvs = true
  /\ argnames c1 = argnames c ++ map (fun kv => "$" +:+ fst kv) kvs
  /\ length (argvalues c1) = (length (argvalues c) + length kvs)%nat.
Proof.
  revert c. induction kvs as [|[k v] kvs IH]; intros c H.
  - injection H as <-. cbn. rewrite app_nil_r. split; [reflexivity|].
    split; [reflexivity|lia].
  - cbn [bindWith] in H. cbn [forallb map length fst]. unfold validName at 1.
    cbn [fst].
    destruct (argNameRe_MatchString k); [|discriminate]. cbn [negb] in H.
    destruct (produce k v) as [err|val]; [discriminate|].
    destruct (IH _ H) as (Hv & Hn & Hl). rewrite Hv, Hn, Hl.
    unfold bind. cbn [argnames argvalues].
    rewrite <- app_assoc, length_app. cbn [length app].
    split; [reflexivity|]. split; [reflexivity|lia].
Qed.

(** A name that fails the check ends its loop with the error of that
    name, once the pairs before it are bound. *)
Lemma bindWith_bad_name produce pre k v post c :
  argNameRe_MatchString k = false ->
  forall c1,
    bindWith (variableNameError X) produce pre c = (c1, None) ->
    bindWith (variableNameError X) produce (pre ++ (k, v) :: post) c
    = (c1, Some (variableNameError X k)).
Proof.
  intros Hk. revert c. induction pre as [|[k' v'] pre IH]; intros c c1 H.
  - injection H as <-. cbn [app bindWith]. now rewrite Hk.
  - cbn [app bindWith] in *.
    destruct (negb (argNameRe_MatchString k')); [discriminate|].
    destruct (produce k' v'); [discriminate|]. now apply IH.
Qed.

Lemma bindAll_bound opts c c1 :
  bindAll X opts c = (c1, None) ->
  forallb validName (earlierBindings opts) = true
  /\ argnames c1
     = argnames c ++ map (fun kv => "$" +:+ fst kv) (earlierBindings opts)
  /\ length (argvalues c1)
     = (length (argvalues c) + length (earlierBindings opts))%nat.
Proof.
  unfold bindAll, earlierBindings. intros H.
  rewrite bindArgs_bindWith in H.
  destruct (bindWith _ _ (Args opts) c) as [c2 [e|]] eqn:H1; [discriminate|].
  rewrite bindArgsJSON_bindWith in H.
  destruct (bindWith _ _ (ArgsJSON opts) c2) as [c3 [e|]] eqn:H2;
    [discriminate|].
  rewrite bindSlurpFile_bindWith in H.
  destruct (bindWith _ _ (SlurpFile opts) c3) as [c4 [e|]] eqn:H3;
    [discriminate|].
  rewrite bindRawFile_bindWith in H.
  destruct (bindWith_bound _ _ _ _ H1) as (V1 & N1 & L1).
  destruct (bindWith_bound _ _ _ _ H2) as (V2 & N2 & L2).
  destruct (bindWith_bound _ _ _ _ H3) as (V3 & N3 & L3).
  destruct (bindWith_bound _ _ _ _ H) as (V4 & N4 & L4).
  rewrite !forallb_app, V1, V2, V3, V4, N4, N3, N2, N1, L4, L3, L2, L1.
  rewrite !map_app, !length_app, <- !app_assoc.
  split; [reflexivity|]. split; [reflexivity|lia].
Qed.

Lemma bindAll_untouched opts c :
  earlierUntouched (fst (bindAll X opts c)) = earlierUntouched c.
Proof.
  unfold bindAll.
  rewrite bindArgs_bindWith.
  pose proof (bindWith_untouched (fun _ v => inr (VString v)) (Args opts) c)
    as H1.
  destruct (bindWith _ _ (Args opts) c) as [c2 [e|]]; cbn [fst] in H1;
    [exact H1|].
  rewrite bindArgsJSON_bindWith.
  match goal with
  | |- context [bindWith ?e ?p (ArgsJSON opts) c2] =>
      pose proof (bindWith_untouched p (ArgsJSON opts) c2) as H2;
      destruct (bindWith e p (ArgsJSON opts) c2) as [c3 [e'|]]
  end; cbn [fst] in H2; [cbn [fst]; now rewrite H2|].
  rewrite bindSlurpFile_bindWith.
  match goal with
  | |- context [bindWith ?e ?p (SlurpFile opts) c3] =>
      pose proof (bindWith_untouched p (SlurpFile opts) c3) as H3;
      destruct (bindWith e p (SlurpFile opts) c3) as [c4 [e'|]]
  end; cbn [fst] in H3; [cbn [fst]; now rewrite H3, H2|].
  rewrite bindRawFile_bindWith, bindWith_untouched.
  now rewrite H3, H2.
Qed.

(** X16.  The earlier start-up checks every variable name of the four
    kinds of bindings against the pattern of an identifier before it
    binds it.  When the bindings are done without an error, every name
    passed the check and the receiver has one name, with a dollar sign
    in front, and one value more for every binding, in the order of the
    loops.  When some name fails the check, the run ends with an error
    before anything is evaluated or written; for [--arg], whose loop
    comes first and has no other failure, the error is the one of the
    first name that fails. *)
Theorem variable_names_are_checked (opts : flagopts) (c : cli) :
  (forall c1,
      bindAll X opts c = (c1, None) ->
      forallb validName (earlierBindings opts) = true
      /\ argnames c1
         = argnames c
           ++ map (fun kv => "$" +:+ fst kv) (earlierBindings opts)
      /\ length (argvalues c1)
         = (length (argvalues c) + length (earlierBindings opts))%nat)
  /\ (forall NoColor args,
        forallb validName (earlierBindings opts) = false ->
        exists c' err,
          runParsed X NoColor opts args c = (c', Some (single err))
          /\ earlierUntouched c' = earlierUntouched c)
  /\ (forall pre k v post,
        Args opts = pre ++ (k, v) :: post ->
        forallb validName pre = true ->
        validName (k, v) = false ->
        snd (bindAll X opts c) = Some (variableNameError X k)).
Proof.
  split; [|split].
  - intros c1. apply bindAll_bound.
  - intros NoColor args Hbad. unfold runParsed.
    set (c0 := set_inputFlags (InputRaw opts) (InputSlurp opts)
                 (InputYAML opts) c).
    pose proof (bindAll_untouched opts c0) as Hu.
    pose proof (bindAll_bound opts c0) as Hb.
    destruct (bindAll X opts c0) as [c' [err|]]; cbn [fst] in Hu.
    + exists c', err. split; [reflexivity|exact Hu].
    + destruct (Hb c' eq_refl) as [Hv _]. congruence.
  - intros pre k v post Hargs Hpre Hk. unfold bindAll.
    rewrite bindArgs_bindWith, Hargs.
    assert (Hok : exists c1,
               bindWith (variableNameError X) (fun _ v0 => inr (VString v0))
                 pre c = (c1, None)).
    { clear Hargs. revert c. induction pre as [|[k' v'] pre IH]; intros c.
      - now exists c.
      - cbn [forallb] in Hpre. apply andb_true_iff in Hpre.
        destruct Hpre as [Hk' Hpre]. unfold validName in Hk'.
        cbn [fst] in Hk'. cbn [bindWith]. rewrite Hk'. cbn [negb].
        apply (IH Hpre). }
    destruct Hok as [c1 Hc1].
    rewrite (bindWith_bad_name _ pre k v post c Hk c1 Hc1). reflexivity.
Qed.

End Names.

End Part000RunFacts.


(** Two documents of which the first fails: the second is not
    evaluated. *)
Example failing_document_stops_the_reader :
  let Marshal := fun (_ : Part000.marshaler) v => inr (A := error) (render v) in
  let parseError := fun (_ _ : string) (err : error) => err in
  let r := Part000.processJSON Marshal parseError "<stdin>"
             [Part000.Doc (VString ""); Part000.Doc (VString "b")]
             rejectEmpty earlierFresh in
  Part000.evaluated (Part000.trace (fst r)) = [VString ""]
  /\ Part000.outStream (fst r) = EmptyString
  /\ snd r = Some (errorString "empty line").
Proof. cbv zeta. repeat split; vm_compute; reflexivity. Qed.

Lemma raw_lines_are_all_evaluated_witness :
  let X := earlierDemo (earlierFlags true []) ["a"; ""; "b"] [] rejectEmpty in
  let Marshal := Part000Run.Marshal X true in
  let lines := fst (Part000Run.Scan X Part000Run.Stdin) in
  let r := Part000Run.processRaw X true "<stdin>" Part000Run.Stdin rejectEmpty
             earlierFresh in
  Part000.evaluated (Part000.trace (fst r))
  = Part000.evaluated (Part000.trace earlierFresh) ++ map VString lines
  /\ fst r = snd (lineOutcomes Marshal rejectEmpty lines earlierFresh)
  /\ length (fst (lineOutcomes Marshal rejectEmpty lines earlierFresh))
     = length lines
  /\ (forall err,
        snd (Part000Run.Scan X Part000Run.Stdin) = Some err ->
        snd r = Some (Part000Run.single err))
  /\ (snd (Part000Run.Scan X Part000Run.Stdin) = None ->
      failuresIn (fst (lineOutcomes Marshal rejectEmpty lines earlierFresh))
      = [] ->
      snd r = None)
  /\ (forall err errs,
        snd (Part000Run.Scan X Part000Run.Stdin) = None ->
        failuresIn (fst (lineOutcomes Marshal rejectEmpty lines earlierFresh))
        = err :: errs ->
        snd r = Some (Part000Run.errors (err :: errs))).
Proof.
  cbv zeta.
  apply (Part000RunFacts.raw_lines_are_all_evaluated
           (earlierDemo (earlierFlags true []) ["a"; ""; "b"] [] rejectEmpty)
           true "<stdin>" Part000Run.Stdin rejectEmpty earlierFresh).
  reflexivity.
Defined.

(** Three raw lines of which the second fails: all three are evaluated,
    the two others are printed, and the top level prints one line for
    the failure and exits with 1. *)
Example raw_lines_example :
  let X := earlierDemo (earlierFlags true []) ["a"; ""; "b"] [] rejectEmpty in
  let r := Part000Run.run X ["."] earlierFresh false in
  Part000.evaluated (Part000.trace (fst (fst r)))
  = [VString "a"; VString ""; VString "b"]
  /\ Part000.outStream (fst (fst r))
     = DQUOTE +:+ "a" +:+ DQUOTE +:+ LF +:+ DQUOTE +:+ "b" +:+ DQUOTE +:+ LF
  /\ Part000.errStream (fst (fst r)) = "gojq: empty line" +:+ LF
  /\ snd r = 1.
Proof. vm_compute. repeat split. Qed.

(** * A query that does not parse or compile *)

Section QueryFailure.

Variable X : Collaborators.

(** X17.  When the query does not parse or does not compile, the run
    ends before any input is pulled, with nothing evaluated and both
    streams as they were.  Without exit-status mode the error of the
    engine, in its wrapper, is what [runInternal] returns; in
    exit-status mode the deferred function keeps it when it carries an
    exit code other than zero and replaces it by the no-value exit code
    otherwise. *)
Theorem query_failure_ends_the_run (args rest rest' : list string)
  (opts : flagopts) (c c1 : cli) (arg fname : string) (err : error) :
  ParseArgs X args = Parsed opts rest ->
  Version opts = false ->
  configure X opts rest (configured X opts c) = (c1, inr (arg, fname, rest')) ->
  prepare X opts arg fname rest' c1 = inl err ->
  runInternal X args c
  = (set_noColor (noColor c) (armed opts c1),
     if ExitStatus opts
     then match ExitCode err with
          | Some code =>
              if code =? 0
              then Some (exitCodeError_lit exitCodeNoValueErr)
              else Some err
          | None => Some (exitCodeError_lit exitCodeNoValueErr)
          end
     else Some err)
  /\ trace (fst (runInternal X args c)) = trace c
  /\ outStream (fst (runInternal X args c)) = outStream c
  /\ errStream (fst (runInternal X args c)) = errStream c.
Proof.
  intros Hp Hv Hc Hpre.
  pose proof (configure_untouched X opts rest (configured X opts c)) as Hu.
  rewrite Hc in Hu. cbn [fst] in Hu. unfold untouched in Hu.
  injection Hu as Ho He _ _ _ Ht _ _ _ _ _ _ _.
  assert (Hrun : runInternal X args c
                 = (set_noColor (noColor c) (armed opts c1),
                    if ExitStatus opts
                    then match ExitCode err with
                         | Some code =>
                             if code =? 0
                             then Some (exitCodeError_lit exitCodeNoValueErr)
                             else Some err
                         | None => Some (exitCodeError_lit exitCodeNoValueErr)
                         end
                    else Some err)).
  { rewrite (runInternal_parsed X args rest opts c Hp Hv), Hc.
    unfold runQuery, evaluate, armed.
    destruct (ExitStatus opts).
    - change (prepare X opts arg fname rest'
                (set_exitCodeError
                   (Some (exitCodeError_lit exitCodeNoValueErr)) c1))
        with (prepare X opts arg fname rest' c1).
      rewrite Hpre. reflexivity.
    - rewrite Hpre. reflexivity. }
  rewrite Hrun. split; [reflexivity|]. cbn [fst].
  unfold armed. destruct (ExitStatus opts); cbn; auto.
Qed.

End QueryFailure.

Lemma query_failure_ends_the_run_witness :
  let opts := flagsOf false false false false false false false None in
  let X := with_gojq_Parse
             (fun _ => inl (errorString "unexpected token"))
             (demo opts ∅ [IValue VNull] identity) in
  let c1 := fst (configure X opts [] (configured X opts fresh)) in
  let err := errorString "unexpected token" in
  runInternal X [] fresh
  = (set_noColor (noColor fresh) (armed opts c1),
     if ExitStatus opts
     then match ExitCode err with
          | Some code =>
              if code =? 0
              then Some (exitCodeError_lit exitCodeNoValueErr)
              else Some err
          | None => Some (exitCodeError_lit exitCodeNoValueErr)
          end
     else Some err)
  /\ trace (fst (runInternal X [] fresh)) = trace fresh
  /\ outStream (fst (runInternal X [] fresh)) = outStream fresh
  /\ errStream (fst (runInternal X [] fresh)) = errStream fresh.
Proof.
  cbv zeta.
  apply (query_failure_ends_the_run
           (with_gojq_Parse
              (fun _ => inl (errorString "unexpected token"))
              (demo (flagsOf false false false false false false false None)
                 ∅ [IValue VNull] identity))
           [] [] []
           (flagsOf false false false false false false false None)
           fresh _ "." EmptyString); reflexivity.
Defined.

(** * Further properties of the earlier readers and of the messages *)

Module Part000ReaderFacts.

Import Part000 Part000Run.

Section Readers.

Variable X : Externals.
Variable NoColor : bool.

Lemma processYAML_loop_fixed fname code dec vs c :
  processYAML_loop X NoColor fname code dec vs c
  = processJSON_loop (Marshal X NoColor) (yamlParseError X) fname code
      (map (fixed X) dec) vs c.
Proof.
  revert vs c. induction dec as [|[v|err buffered] dec IH]; intros vs c.
  - reflexivity.
  - cbn [map fixed processYAML_loop processJSON_loop].
    destruct (inputSlurp c); [apply IH|].
    destruct (printValue (Marshal X NoColor)
                (code (fixMapKeyToString X v)
                   (argvalues (note (EvRun (fixMapKeyToString X v)) c)))
                (note (EvRun (fixMapKeyToString X v)) c)) as [c1 [e|]];
      [reflexivity|apply IH].
  - reflexivity.
Qed.

(** X18.  The earlier [processYAML] is [processJSON] on another
    decoder: it does to the documents of the YAML decoder, once the keys
    of their maps are fixed, what [processJSON] does to its documents,
    and wraps a failure of the decoder as a YAML parse error.  In slurp
    mode it therefore evaluates the query once, on the array of all the
    fixed documents. *)
Theorem yaml_is_read_like_json (fname : string) (input : source)
  (code : Code) (c : cli) :
  processYAML X NoColor fname input code c
  = processJSON (Marshal X NoColor) (yamlParseError X) fname
      (map (fixed X) (yaml_Decode X input)) code c
  /\ (forall docs,
        inputSlurp c = true ->
        yaml_Decode X input = map Doc docs ->
        processYAML X NoColor fname input code c
        = printValue (Marshal X NoColor)
            (code (VArray (map (fixMapKeyToString X) docs)) (argvalues c))
            (note (EvRun (VArray (map (fixMapKeyToString X) docs))) c)).
Proof.
  split.
  - apply processYAML_loop_fixed.
  - intros docs Hs Hd. unfold processYAML.
    rewrite processYAML_loop_fixed, Hd, map_map.
    change (map (fun x => fixed X (Doc x)) docs)
      with (map (fun x => Doc (fixMapKeyToString X x)) docs).
    rewrite <- (map_map (fixMapKeyToString X) Doc).
    now rewrite (Part000Facts.processJSON_loop_slurp (Marshal X NoColor)
                   (yamlParseError X) fname code _ [] c Hs).
Qed.

Lemma slurpFile_loop_docs name docs vals :
  slurpFile_loop X name (map Doc docs) vals = inr (vals ++ docs).
Proof.
  revert vals. induction docs as [|d docs IH]; intros vals.
  - cbn. now rewrite app_nil_r.
  - cbn [map slurpFile_loop]. now rewrite IH, <- app_assoc.
Qed.

Lemma slurpFile_loop_bad name docs err buffered rest vals :
  slurpFile_loop X name (map Doc docs ++ Bad err buffered :: rest) vals
  = inl (jsonParseError X name buffered err).
Proof.
  revert vals. induction docs as [|d docs IH]; intros vals.
  - reflexivity.
  - cbn [map app slurpFile_loop]. apply IH.
Qed.

(** X19.  The earlier [slurpFile] returns all the documents of the file,
    in their order, or none: a file that cannot be opened gives the
    error of [os.Open], and a document that fails to decode gives the
    JSON parse error of the file, whatever was decoded before it. *)
Theorem slurpFile_all_or_nothing (name : string) :
  (forall err, os_Open X name = Some err -> slurpFile X name = inl err)
  /\ (forall docs,
        os_Open X name = None ->
        json_Decode X false (File name) = map Doc docs ->
        slurpFile X name = inr docs)
  /\ (forall docs err buffered rest,
        os_Open X name = None ->
        json_Decode X false (File name)
        = map Doc docs ++ Bad err buffered :: rest ->
        slurpFile X name = inl (jsonParseError X name buffered err)).
Proof.
  unfold slurpFile. split; [|split].
  - intros err ->. reflexivity.
  - intros docs -> ->. apply slurpFile_loop_docs.
  - intros docs err buffered rest -> ->. apply slurpFile_loop_bad.
Qed.

End Readers.

Section Messages.

Variable Marshal : marshaler -> value -> error + string.

Lemma emit_toOut_view m x c c' :
  outView c = outView c' ->
  outView (fst (emit Marshal m toOut x c))
  = outView (fst (emit Marshal m toOut x c'))
  /\ snd (emit Marshal m toOut x c) = snd (emit Marshal m toOut x c').
Proof.
  unfold emit, outView. intros H.
  destruct (Marshal m x) as [err|xs]; [now split|].
  destruct c, c'. cbn in H. injection H as -> -> -> ->.
  cbn.
  repeat match goal with
    | |- context [if ?b then _ else _] => is_var b; destruct b; cbn
    | |- context [negb ?b] => is_var b; destruct b; cbn
    end; now split.
Qed.

Lemma emit_toOut_plain m x c :
  outputYAML c = false ->
  outputYAML (fst (emit Marshal m toOut x c)) = false
  /\ (outputYAMLSeparator c = false ->
      outputYAMLSeparator (fst (emit Marshal m toOut x c)) = false).
Proof.
  unfold emit. intros H.
  destruct (Marshal m x) as [err|xs]; [now split|].
  destruct c. cbn in H. subst. cbn.
  repeat match goal with
    | |- context [if ?b then _ else _] => is_var b; destruct b; cbn
    | |- context [negb ?b] => is_var b; destruct b; cbn
    end; now split.
Qed.

Lemma emit_toErr_view m x c :
  outputYAML c = false ->
  outputYAMLSeparator c = false ->
  outView (fst (emit Marshal m toErr x
                  (set_outputCompact (outputCompact c)
                     (set_outputCompact true c))))
  = outView c.
Proof.
  unfold emit, outView. intros Hy Hs.
  destruct (Marshal m x) as [err|xs]; [now destruct c|].
  destruct c. cbn in Hy, Hs. subst. cbn.
  repeat match goal with
    | |- context [if ?b then _ else _] => is_var b; destruct b; cbn
    | |- context [negb ?b] => is_var b; destruct b; cbn
    end; reflexivity.
Qed.

Lemma printValue_loop_messages m v c c' :
  outView c = outView c' ->
  outputYAML c = false ->
  outputYAMLSeparator c = false ->
  snd (printValue_loop Marshal m v c) = None ->
  outView (fst (printValue_loop Marshal m v c))
  = outView (fst (printValue_loop Marshal m (withoutMessages v) c'))
  /\ snd (printValue_loop Marshal m (withoutMessages v) c') = None.
Proof.
  revert c c'. induction v as [|[e|v0 v1|x] v IH]; intros c c' Hv Hy Hs Hn.
  - now split.
  - discriminate.
  - destruct v0 as [| | |s| |].
    4: { cbn [printValue_loop] in Hn |- *.
         unfold withoutMessages. cbn [List.filter isMessage].
         destruct (String.eqb s "HALT:") eqn:Hh; cbn [negb].
         - cbn [printValue_loop]. rewrite Hh. now split.
         - pose proof (emit_toErr_view
                         (createMarshaler (set_outputCompact true c))
                         (if String.eqb s "STDERR:" then v1
                          else VArray [VString s; v1]) c Hy Hs) as He.
           destruct (emit Marshal
                       (createMarshaler (set_outputCompact true c)) toErr
                       (if String.eqb s "STDERR:" then v1
                        else VArray [VString s; v1])
                       (set_outputCompact (outputCompact c)
                          (set_outputCompact true c)))
             as [c1 [e|]]; [discriminate|].
           cbn [fst] in He.
           assert (Hy1 : outputYAML c1 = false)
             by (unfold outView in He; congruence).
           assert (Hs1 : outputYAMLSeparator c1 = false)
             by (unfold outView in He; congruence).
           apply IH; try assumption. now rewrite He. }
    all: cbn [printValue_loop] in Hn |- *;
         unfold withoutMessages; cbn [List.filter isMessage negb];
         cbn [printValue_loop];
         match goal with
         | Hv' : outView ?c0 = outView ?c0', Hy' : outputYAML ?c0 = false
           |- context [emit Marshal ?m0 toOut ?x ?c0'] =>
             destruct (emit_toOut_view m0 x c0 c0' Hv') as [Ev Es];
             destruct (emit_toOut_plain m0 x c0 Hy') as [Hy1 Hs1];
             destruct (emit Marshal m0 toOut x c0) as [c1 [e|]];
             [discriminate|];
             destruct (emit Marshal m0 toOut x c0') as [c1' [e'|]];
             cbn [fst snd] in *; [discriminate|];
             match goal with IH' : forall _ _, _ |- _ => apply IH' end; auto
         end.
  - cbn [printValue_loop] in Hn |- *.
    unfold withoutMessages. cbn [List.filter isMessage negb].
    cbn [printValue_loop].
    destruct (emit_toOut_view m x c c' Hv) as [Ev Es].
    destruct (emit_toOut_plain m x c Hy) as [Hy1 Hs1].
    destruct (emit Marshal m toOut x c) as [c1 [e|]]; [discriminate|].
    destruct (emit Marshal m toOut x c') as [c1' [e'|]];
      cbn [fst snd] in *; [discriminate|].
    apply IH; auto.
Qed.

(** X20.  When the output is not YAML, the messages of [debug] and
    [stderr] (the pairs tagged with a string other than [HALT:]) never
    reach the output stream: if the earlier [printValue] returns nil on
    a result sequence, it returns nil on the sequence without the
    messages too, and has written the same bytes to the output
    stream. *)
Theorem messages_stay_off_the_output (v : list result) (c : cli) :
  outputYAML c = false ->
  outputYAMLSeparator c = false ->
  snd (printValue Marshal v c) = None ->
  outStream (fst (printValue Marshal v c))
  = outStream (fst (printValue Marshal (withoutMessages v) c))
  /\ snd (printValue Marshal (withoutMessages v) c) = None.
Proof.
  intros Hy Hs Hn. unfold printValue in *.
  destruct (printValue_loop_messages (createMarshaler c) v c c eq_refl
              Hy Hs Hn) as [Hv Hr].
  split; [|exact Hr]. unfold outView in Hv. congruence.
Qed.

End Messages.

End Part000ReaderFacts.

Lemma messages_stay_off_the_output_witness :
  let Marshal := fun (_ : Part000.marshaler) v => inr (A := error) (render v) in
  let v := [Part000.RValue (VNumber 1);
            Part000.RPair (VString "DEBUG:") (VNumber 2);
            Part000.RValue (VNumber 3)] in
  Part000.outStream (fst (Part000.printValue Marshal v earlierFresh))
  = Part000.outStream
      (fst (Part000.printValue Marshal (withoutMessages v) earlierFresh))
  /\ snd (Part000.printValue Marshal (withoutMessages v) earlierFresh) = None.
Proof.
  cbv zeta.
  apply (Part000ReaderFacts.messages_stay_off_the_output
           (fun (_ : Part000.marshaler) v => inr (A := error) (render v)));
    reflexivity.
Defined.
